(** * A shallow embedding of the [myls] directory lister (src/ls_Functions.c, src/myls.c)

    The filesystem is a [World]: a working directory, the results of
    [stat] (following symbolic links) and [lstat] (not following them) per
    absolute path, the [readdir] order of each directory, and the user and
    group databases.  Output is a trace of [event]s: what reaches standard
    output, what reaches standard error, and when a directory handle is
    opened and closed. *)

From Stdlib Require Import List String Ascii ZArith Lia Bool Permutation Sorted Btauto.
Import ListNotations.
Open Scope Z_scope.

(** ** C strings *)

(** The byte of a [char], read as [unsigned char] (as [strcmp] does). *)
Definition byte (c : ascii) : Z := Z.of_nat (nat_of_ascii c).

(** [strcmp]: the difference of the first differing bytes, the terminating
    NUL counting as byte 0. *)
Fixpoint strcmp (s1 s2 : string) : Z :=
  match s1, s2 with
  | EmptyString, EmptyString => 0
  | EmptyString, String c2 _ => 0 - byte c2
  | String c1 _, EmptyString => byte c1
  | String c1 r1, String c2 r2 =>
      if Ascii.eqb c1 c2 then strcmp r1 r2 else byte c1 - byte c2
  end.

(** [tolower] in the C locale: only 'A'..'Z' change. *)
Definition tolower (c : ascii) : ascii :=
  let n := nat_of_ascii c in
  if (65 <=? n)%nat && (n <=? 90)%nat then ascii_of_nat (n + 32) else c.

(** The loops [lower[i] = tolower(lower[i])] of [compare_case_insensitive]. *)
Fixpoint lower (s : string) : string :=
  match s with
  | EmptyString => EmptyString
  | String c r => String (tolower c) (lower r)
  end.

(** [d_name[0] == '.'] *)
Definition starts_with_dot (s : string) : bool :=
  match s with
  | String c _ => Ascii.eqb c "."%char
  | EmptyString => false
  end.

(** ** File metadata and the filesystem *)

Record Stat := mkStat {
  st_mode : Z; st_ino : Z; st_nlink : Z; st_uid : Z; st_gid : Z;
  st_size : Z; st_atime : Z; st_mtime : Z; st_ctime : Z }.

Record World := mkWorld {
  cwd : string;                              (** absolute working directory *)
  stat_tbl : list (string * Stat);           (** [stat]: follows symlinks *)
  lstat_tbl : list (string * Stat);          (** [lstat]: does not *)
  dir_tbl : list (string * list string);     (** [readdir] order per directory *)
  passwd : list (Z * string);                (** [getpwuid] *)
  group_db : list (Z * string);              (** [getgrgid] *)
  localtime_ok : Z -> bool }.                (** whether [localtime] can break this
                                                 [time_t] down in the local time zone
                                                 (glibc fails with EOVERFLOW when the
                                                 year does not fit an [int]) *)

Fixpoint assoc {A B} (eqb : A -> A -> bool) (k : A) (l : list (A * B)) : option B :=
  match l with
  | [] => None
  | (k', v) :: l' => if eqb k k' then Some v else assoc eqb k l'
  end.

(** The kernel resolves a relative path against the working directory. *)
Definition resolve (w : World) (p : string) : string :=
  match p with
  | String "/"%char _ => p
  | _ => (cwd w ++ "/" ++ p)%string
  end.

Definition stat (w : World) (p : string) : option Stat :=
  assoc String.eqb (resolve w p) (stat_tbl w).
Definition lstat (w : World) (p : string) : option Stat :=
  assoc String.eqb (resolve w p) (lstat_tbl w).
(** [opendir] followed by the [readdir] calls until NULL. *)
Definition opendir (w : World) (p : string) : option (list string) :=
  assoc String.eqb (resolve w p) (dir_tbl w).
Definition getpwuid (w : World) (u : Z) : option string := assoc Z.eqb u (passwd w).
Definition getgrgid (w : World) (g : Z) : option string := assoc Z.eqb g (group_db w).

(** ** Mode bits (<sys/stat.h>) *)

Definition S_IFMT := 61440.    (* 0170000 *)
Definition S_IFSOCK := 49152.  (* 0140000 *)
Definition S_IFLNK := 40960.   (* 0120000 *)
Definition S_IFREG := 32768.   (* 0100000 *)
Definition S_IFBLK := 24576.   (* 0060000 *)
Definition S_IFDIR := 16384.   (* 0040000 *)
Definition S_IFCHR := 8192.    (* 0020000 *)
Definition S_IFIFO := 4096.    (* 0010000 *)
Definition S_ISUID := 2048.    (* 04000 *)
Definition S_ISGID := 1024.    (* 02000 *)
Definition S_ISVTX := 512.     (* 01000 *)
Definition S_IRUSR := 256.     (* 0400 *)
Definition S_IWUSR := 128.
Definition S_IXUSR := 64.
Definition S_IRGRP := 32.
Definition S_IWGRP := 16.
Definition S_IXGRP := 8.
Definition S_IROTH := 4.
Definition S_IWOTH := 2.
Definition S_IXOTH := 1.

Definition S_ISTYPE (t m : Z) : bool := Z.eqb (Z.land m S_IFMT) t.
Definition S_ISREG := S_ISTYPE S_IFREG.
Definition S_ISDIR := S_ISTYPE S_IFDIR.
Definition S_ISBLK := S_ISTYPE S_IFBLK.
Definition S_ISCHR := S_ISTYPE S_IFCHR.
Definition S_ISLNK := S_ISTYPE S_IFLNK.
Definition S_ISFIFO := S_ISTYPE S_IFIFO.
Definition S_ISSOCK := S_ISTYPE S_IFSOCK.

(** [mode & bit] as a C condition. *)
Definition has (m bit : Z) : bool := negb (Z.eqb (Z.land m bit) 0).

(** ** The comparators handed to [qsort] *)

(** [compare_by_ctime]; the [perror] lines it writes from inside [qsort]
    are not part of the trace. *)
Definition compare_by_ctime (w : World) (a b : string) : Z :=
  match stat w a with
  | None => 1
  | Some s1 =>
    match stat w b with
    | None => -1
    | Some s2 =>
      if st_ctime s1 >? st_ctime s2 then -1
      else if st_ctime s1 <? st_ctime s2 then 1
      else 0
    end
  end.

(** [compare_by_access_time] *)
Definition compare_by_access_time (w : World) (a b : string) : Z :=
  match stat w a with
  | None => 1
  | Some s1 =>
    match stat w b with
    | None => -1
    | Some s2 =>
      if st_atime s1 <? st_atime s2 then 1
      else if st_atime s1 >? st_atime s2 then -1
      else strcmp a b
    end
  end.

(** [compare_case_insensitive] *)
Definition compare_case_insensitive (a b : string) : Z :=
  strcmp (lower a) (lower b).

(** [compare_with_hidden] *)
Definition compare_with_hidden (a b : string) : Z :=
  if String.eqb a "." then -1
  else if String.eqb a ".." then -1
  else if String.eqb b "." then 1
  else if String.eqb b ".." then 1
  else strcmp a b.

(** [compare] *)
Definition compare (a b : string) : Z := strcmp a b.

(** ** [qsort]

    glibc's [qsort] sorts arrays that fit its temporary buffer with a
    top-down merge sort ([msort_with_tmp]): the first [n/2] elements and
    the rest are sorted recursively, then merged, taking from the left run
    whenever [cmp left right <= 0]. *)

Section Qsort.
Variable cmp : string -> string -> Z.

Fixpoint merge (l1 l2 : list string) : list string :=
  match l1 with
  | [] => l2
  | a :: l1' =>
    (fix merge_r (l2 : list string) : list string :=
       match l2 with
       | [] => l1
       | b :: l2' => if cmp a b <=? 0 then a :: merge l1' l2 else b :: merge_r l2'
       end) l2
  end.

Fixpoint msort_fuel (fuel : nat) (l : list string) : list string :=
  match fuel with
  | O => l
  | S f =>
    if (List.length l <=? 1)%nat then l
    else
      let n1 := Nat.div (List.length l) 2 in
      merge (msort_fuel f (firstn n1 l)) (msort_fuel f (skipn n1 l))
  end.

Definition qsort (l : list string) : list string := msort_fuel (List.length l) l.
End Qsort.

(** ** Command-line flags (the globals of myls.c) *)

Record Flags := mkFlags {
  is_no_option_enabled : bool;
  is_long_format_enabled : bool;
  is_hidden_files_enabled : bool;
  is_sort_by_time_enabled : bool;
  is_sort_by_access_time_enabled : bool;
  is_directory_option_enabled : bool;
  is_ctime_option_enabled : bool;
  is_no_sort_enabled : bool;
  is_inode_enabled : bool;
  is_column_output_enabled : bool }.

Definition flags0 : Flags :=
  mkFlags false false false false false false false false false false.

(** One iteration of the [getopt] loop of [main], with its fall-throughs:
    ['t'] falls into ['u'], ['d'] falls into ['c']. *)
Definition apply_opt (f : Flags) (o : ascii) : Flags :=
  let '(mkFlags _ l a t u d c nf i one) := f in
  let no := true in
  match o with
  | "l"%char => mkFlags no true a t u d c nf i one
  | "a"%char => mkFlags no l true t u d c nf i one
  | "t"%char => mkFlags no l a true true d c nf i one
  | "u"%char => mkFlags no l a t true d c nf i one
  | "d"%char => mkFlags no l a t u true true nf i one
  | "c"%char => mkFlags no l a t u d true nf i one
  | "f"%char => mkFlags no l a t u d c true i one
  | "i"%char => mkFlags no l a t u d c nf true one
  | "1"%char => mkFlags no l a t u d c nf i true
  | _ => mkFlags no l a t u d c nf i one
  end.

Definition flags_of_opts (os : list ascii) : Flags := fold_left apply_opt os flags0.

(** ** Output trace *)

Record LongRow := mkLongRow {
  row_perms : string; row_nlink : Z; row_owner : string; row_group : string;
  row_size : Z; row_mtime : Z }.

Inductive event :=
  | DirOpen (p : string)          (** [opendir] returned a handle *)
  | DirClose (p : string)         (** [closedir] on that handle *)
  | Diag (msg : string)           (** a line on standard error *)
  | Inode (ino : Z)               (** [printf("%6ld ", st_ino)] *)
  | Name (path : string)          (** the name printed by [print_with_color] *)
  | TypeChar (t : string)         (** the type letter of a long line *)
  | Row (r : LongRow)             (** the rest of a long line, before its name *)
  | Total (n : Z)                 (** [printf("total %ld\n", ...)] *)
  | Newline
  | Overflow.                     (** undefined behaviour, the run is cut here:
                                      a store past the end of a fixed array, or
                                      an overflow of the signed [total_size] *)

(** ** [basename] (<libgen.h>, glibc's [__xpg_basename]) *)

Definition is_slash (c : ascii) : bool := Ascii.eqb c "/"%char.

Fixpoint drop_while (f : ascii -> bool) (l : list ascii) : list ascii :=
  match l with
  | [] => []
  | c :: l' => if f c then drop_while f l' else l
  end.

Fixpoint take_while (f : ascii -> bool) (l : list ascii) : list ascii :=
  match l with
  | [] => []
  | c :: l' => if f c then c :: take_while f l' else []
  end.

(** [basename]: "." for the empty path, "/" for a path of slashes only,
    otherwise the last component without its trailing slashes. *)
Definition basename (p : string) : string :=
  match list_ascii_of_string p with
  | [] => "."%string
  | l =>
    match drop_while is_slash (rev l) with
    | [] => "/"%string
    | r => string_of_list_ascii (rev (take_while (fun c => negb (is_slash c)) r))
    end
  end.

(** [basename] also edits its argument: unless the path is empty or made
    of slashes only, it writes a NUL over the first of its trailing
    slashes.  This shortened [path] is what the printing functions then
    hand to [lstat] and [readlink]. *)
Definition basename_path (p : string) : string :=
  match drop_while is_slash (rev (list_ascii_of_string p)) with
  | [] => p
  | r => string_of_list_ascii (rev r)
  end.

(** ** Rendering *)

(** [print_with_color] / [print_column_with_color]: both take the
    [basename] of the path, then [lstat] the path as [basename] left it,
    and print nothing but a diagnostic when that fails; otherwise they
    print the name, recorded as [Name] of the path they were called with
    (the colour and the link target are not modelled here), followed by
    three spaces or by a newline. *)
Definition print_with_color (w : World) (path : string) : list event :=
  match lstat w (basename_path path) with
  | None => [Diag "Failed to retrieve file information"]
  | Some _ => [Name path]
  end.

Definition print_column_with_color (w : World) (path : string) : list event :=
  match lstat w (basename_path path) with
  | None => [Diag "Failed to retrieve file information"]
  | Some _ => [Name path; Newline]
  end.

(** [permissions[i] = c] *)
Fixpoint set_nth (l : list ascii) (i : nat) (c : ascii) : list ascii :=
  match l, i with
  | [], _ => []
  | _ :: l', O => c :: l'
  | x :: l', S i' => x :: set_nth l' i' c
  end.

Definition when (b : bool) (i : nat) (c : ascii) (p : list ascii) : list ascii :=
  if b then set_nth p i c else p.

(** The permission string of [print_longformat]. *)
Definition permissions (mode : Z) : string :=
  let p := list_ascii_of_string "---------" in
  let p := when (has mode S_IRUSR) 0 "r" p in
  let p := when (has mode S_IWUSR) 1 "w" p in
  let p := when (has mode S_IXUSR) 2 (if has mode S_ISUID then "s" else "x") p in
  let p := when (has mode S_IRGRP) 3 "r" p in
  let p := when (has mode S_IWGRP) 4 "w" p in
  let p := when (has mode S_IXGRP) 5 (if has mode S_ISGID then "s" else "x") p in
  let p := when (has mode S_IROTH) 6 "r" p in
  let p := when (has mode S_IWOTH) 7 "w" p in
  let p := when (has mode S_IXOTH) 8 (if has mode S_ISVTX then "t" else "x") p in
  string_of_list_ascii p.

Definition type_char (mode : Z) : string :=
  if S_ISREG mode then "-" else if S_ISDIR mode then "d"
  else if S_ISBLK mode then "b" else if S_ISCHR mode then "c"
  else if S_ISLNK mode then "l" else if S_ISFIFO mode then "p"
  else if S_ISSOCK mode then "s" else "Unknown type".

(** [print_longformat].  When [localtime] fails it prints a diagnostic
    and returns, the type letter already printed.  [strftime] is taken to
    succeed: the locale is ar_AE.UTF-8 or C, and "%A %d %H:%M" then gives
    a nonempty text well under the 100 bytes of [time_str].  The formatted
    time is kept as the [st_mtime] it is computed from. *)
Definition print_longformat (w : World) (path : string) : list event :=
  match lstat w path with
  | None => [Diag "lstat failed"]
  | Some buf =>
    let mode := st_mode buf in
    TypeChar (type_char mode) ::
    match getpwuid w (st_uid buf), getgrgid w (st_gid buf) with
    | None, _ => [Diag "getpwuid failed"]
    | Some _, None => [Diag "getgrgid failed"]
    | Some owner, Some grp =>
      if negb (localtime_ok w (st_mtime buf)) then [Diag "localtime failed"]
      else
      Row (mkLongRow (permissions mode) (st_nlink buf) owner grp (st_size buf)
                     (st_mtime buf))
      :: print_with_color w path ++ [Newline]
    end
  end.

(** The optional inode column. *)
Definition print_inode (w : World) (fl : Flags) (path : string) : list event :=
  if is_inode_enabled fl then
    match lstat w path with Some s => [Inode (st_ino s)] | None => [] end
  else [].

(** ** [do_ls] *)

Definition MAX_ENTRIES : nat := 100.

(** The hidden-file test of both enumeration loops. *)
Definition skip_entry (fl : Flags) (d : string) : bool :=
  starts_with_dot d && negb (is_hidden_files_enabled fl) && negb (is_no_sort_enabled fl).

(** The [readdir] loop of [do_ls]: kept names go to [file_entries], which
    has [room] free slots; storing into a full array is [Overflow]. *)
Fixpoint read_entries (fl : Flags) (ents : list string) (room : nat) : option (list string) :=
  match ents with
  | [] => Some []
  | d :: rest =>
    if skip_entry fl d then read_entries fl rest room
    else match room with
         | O => None
         | S room' => option_map (cons d) (read_entries fl rest room')
         end
  end.

(** [snprintf(full_path, sizeof(full_path), ...)] into [char full_path[1024]]:
    at most 1023 bytes are written before the terminating NUL. *)
Definition snprintf_full_path (s : string) : string := substring 0 1023 s.

(** [full_path] as [do_ls] and the first pass of the long listing build it. *)
Definition join_path (dir name : string) : string :=
  snprintf_full_path
    (if String.eqb dir "/" then (dir ++ name)%string else (dir ++ "/" ++ name)%string).

(** The sort step of [do_ls]: [qsort] over the bare entry names. *)
Definition do_ls_sort (w : World) (fl : Flags) (es : list string) : list string :=
  if (is_sort_by_time_enabled fl || is_sort_by_access_time_enabled fl)
     && negb (is_no_sort_enabled fl) then qsort (compare_by_access_time w) es
  else if is_ctime_option_enabled fl && negb (is_no_sort_enabled fl)
  then qsort (compare_by_ctime w) es
  else if negb (is_no_sort_enabled fl) then qsort compare_with_hidden es
  else es.

Definition print_entry (w : World) (fl : Flags) (path : string) : list event :=
  print_inode w fl path ++
  (if is_column_output_enabled fl then print_column_with_color w path
   else print_with_color w path).

Definition do_ls (w : World) (fl : Flags) (input_path : string) : list event :=
  let trailer := if is_column_output_enabled fl then [] else [Newline] in
  match opendir w input_path with
  | None =>
    match stat w input_path with
    | None => [Diag "stat failed"]
    | Some st =>
      if negb (S_ISREG (st_mode st)) then [Diag "Cannot open directory"]
      else print_entry w fl input_path ++ trailer
    end
  | Some ents =>
    DirOpen input_path ::
    match read_entries fl ents MAX_ENTRIES with
    | None => [Overflow]
    | Some es =>
      DirClose input_path ::
      List.concat (map (fun n => print_entry w fl (join_path input_path n))
                  (do_ls_sort w fl es)) ++ trailer
    end
  end.

(** ** [list_directory_long_format] *)

Definition MAX_LONG : nat := 1024.

(** [long] is 64 bits wide. *)
Definition LONG_MIN : Z := -9223372036854775808.   (* -2^63 *)
Definition LONG_MAX : Z := 9223372036854775807.    (* 2^63 - 1 *)
Definition long_fits (z : Z) : bool := (LONG_MIN <=? z) && (z <=? LONG_MAX).

Inductive pass_result :=
  | PassDone (names : list string) (total_size : Z)
  | PassStatFailed
  | PassOverflow.                 (** [filenames] full, or [total_size] overflowed *)

(** The first pass: build [full_path], skip hidden names, store the name
    into [filenames] ([room] free slots), then [stat] the full path and add
    its [st_size] to [total_size] (a signed [long]: leaving its range is
    undefined); a failing [stat] prints a diagnostic and returns from the
    function. *)
Fixpoint lf_first_pass (w : World) (fl : Flags) (input_path : string)
    (ents : list string) (room : nat) (total_size : Z) : pass_result :=
  match ents with
  | [] => PassDone [] total_size
  | d :: rest =>
    let full_path := join_path input_path d in
    if skip_entry fl d then lf_first_pass w fl input_path rest room total_size
    else match room with
         | O => PassOverflow
         | S room' =>
           match stat w full_path with
           | None => PassStatFailed
           | Some st =>
             if negb (long_fits (total_size + st_size st)) then PassOverflow
             else
             match lf_first_pass w fl input_path rest room' (total_size + st_size st) with
             | PassDone ns t => PassDone (d :: ns) t
             | r => r
             end
           end
         end
  end.

(** The sort step of [list_directory_long_format]. *)
Definition lf_sort (w : World) (fl : Flags) (names : list string) : list string :=
  if is_hidden_files_enabled fl && negb (is_sort_by_time_enabled fl)
     && negb (is_no_sort_enabled fl) then qsort compare_with_hidden names
  else if is_sort_by_time_enabled fl && negb (is_no_sort_enabled fl)
  then qsort (compare_by_access_time w) names
  else if negb (is_no_sort_enabled fl) then qsort compare_case_insensitive names
  else names.

Definition list_directory_long_format (w : World) (fl : Flags) (input_path : string)
    : list event :=
  match opendir w input_path with
  | None =>
    match stat w input_path with
    | None => [Diag "stat failed"]
    | Some st =>
      if negb (S_ISREG (st_mode st)) then [Diag "Cannot open directory"]
      else print_inode w fl input_path ++ print_longformat w input_path
    end
  | Some ents =>
    DirOpen input_path ::
    match lf_first_pass w fl input_path ents MAX_LONG 0 with
    | PassOverflow => [Overflow]
    | PassStatFailed => [Diag "stat failed"]
    | PassDone names total_size =>
      DirClose input_path :: Total (Z.quot total_size 1024) ::
      List.concat (map (fun n => let full_path := snprintf_full_path (input_path ++ "/" ++ n) in
                            print_inode w fl full_path ++ print_longformat w full_path)
                  (lf_sort w fl names))
    end
  end.

(** ** Observations on a trace *)

Fixpoint printed_names (tr : list event) : list string :=
  match tr with
  | [] => []
  | Name p :: tr' => p :: printed_names tr'
  | _ :: tr' => printed_names tr'
  end.

Fixpoint row_sizes (tr : list event) : list Z :=
  match tr with
  | [] => []
  | Row r :: tr' => row_size r :: row_sizes tr'
  | _ :: tr' => row_sizes tr'
  end.

Definition sum_Z (l : list Z) : Z := fold_right Z.add 0 l.

(** The hidden-file condition under which an enumerated name is left out. *)
Definition omitted (fl : Flags) (d : string) : Prop :=
  starts_with_dot d = true /\ is_hidden_files_enabled fl = false
  /\ is_no_sort_enabled fl = false.

(** The names the enumeration loops keep. *)
Definition kept (fl : Flags) (ents : list string) : list string :=
  filter (fun d => negb (skip_entry fl d)) ents.

(** [st_size] as [stat] (following symlinks) reports it for [dir/name]. *)
Definition stat_size (w : World) (dir name : string) : Z :=
  match stat w (join_path dir name) with Some s => st_size s | None => 0 end.

(** The permission string as described: an [rwxrwxrwx] template, unset
    bits shown as '-', the execute positions showing 's', 's', 't' when
    setuid, setgid, sticky are also set. *)
Definition perm_triple (r w x special : bool) (sc : ascii) : string :=
  String (if r then "r" else "-")
    (String (if w then "w" else "-")
       (String (if x then (if special then sc else "x") else "-") EmptyString)).

Definition perm_spec (mode : Z) : string :=
  (perm_triple (has mode S_IRUSR) (has mode S_IWUSR) (has mode S_IXUSR) (has mode S_ISUID) "s"
   ++ perm_triple (has mode S_IRGRP) (has mode S_IWGRP) (has mode S_IXGRP) (has mode S_ISGID) "s"
   ++ perm_triple (has mode S_IROTH) (has mode S_IWOTH) (has mode S_IXOTH) (has mode S_ISVTX) "t")%string.

(** ** Concrete filesystems *)

Definition reg (ino size atm mt ct : Z) : Stat :=
  mkStat (S_IFREG + 420) ino 1 1000 1000 size atm mt ct.
Definition dirst (ino : Z) : Stat := mkStat (S_IFDIR + 493) ino 2 1000 1000 4096 0 0 0.
Definition lnk (ino size : Z) : Stat := mkStat (S_IFLNK + 511) ino 1 1000 1000 size 0 0 0.

Definition users : list (Z * string) := [(1000, "user"%string)].
Definition groups : list (Z * string) := [(1000, "user"%string)].

(** [x] has the older mtime and the newer atime. *)
Definition w_times : World :=
  let t := [("/home"%string, dirst 2); ("/home/x"%string, reg 11 10 2 1 0);
            ("/home/y"%string, reg 12 10 1 2 0)] in
  mkWorld "/home" t t [("/home"%string, ["."; ".."; "x"; "y"]%string)]
    users groups (fun _ => true).

(** A directory whose [readdir] yields [..] before [.]. *)
Definition w_dots : World :=
  let t := [("/d"%string, dirst 2); ("/d/."%string, dirst 2); ("/d/.."%string, dirst 1);
            ("/d/a"%string, reg 11 1 0 0 0); ("/d/b"%string, reg 12 1 0 0 0)] in
  mkWorld "/home" t t [("/d"%string, [".."; "b"; "."; "a"]%string)]
    users groups (fun _ => true).

(** A directory holding a dangling symbolic link. *)
Definition w_dangling : World :=
  mkWorld "/home"
    [("/d"%string, dirst 2); ("/d/a"%string, reg 11 1 0 0 0); ("/d/z"%string, reg 13 1 0 0 0)]
    [("/d"%string, dirst 2); ("/d/a"%string, reg 11 1 0 0 0);
     ("/d/dangling"%string, lnk 12 7); ("/d/z"%string, reg 13 1 0 0 0)]
    [("/d"%string, ["."; ".."; "a"; "dangling"; "z"]%string)]
    users groups (fun _ => true).

(** Two files with the same ctime. *)
Definition w_ctime : World :=
  let t := [("/d"%string, dirst 2); ("/d/a"%string, reg 11 1 0 0 5);
            ("/d/b"%string, reg 12 1 0 0 5)] in
  mkWorld "/d" t t [("/d"%string, ["."; ".."; "b"; "a"]%string)]
    users groups (fun _ => true).

Definition w_fruit : World :=
  let t := [("/d"%string, dirst 2); ("/d/."%string, dirst 2); ("/d/.."%string, dirst 1);
            ("/d/Banana"%string, reg 11 1 0 0 0); ("/d/apple"%string, reg 12 1 0 0 0);
            ("/d/Cherry"%string, reg 13 1 0 0 0)] in
  mkWorld "/home" t t [("/d"%string, ["."; ".."; "Banana"; "apple"; "Cherry"]%string)]
    users groups (fun _ => true).

(** [lnk] is a symbolic link (3 bytes) to a 2048-byte file. *)
Definition w_link : World :=
  mkWorld "/home"
    [("/d"%string, dirst 2); ("/d/big"%string, reg 11 2048 0 0 0);
     ("/d/lnk"%string, reg 11 2048 0 0 0)]
    [("/d"%string, dirst 2); ("/d/big"%string, reg 11 2048 0 0 0);
     ("/d/lnk"%string, lnk 12 3)]
    [("/d"%string, ["."; ".."; "big"; "lnk"]%string)]
    users groups (fun _ => true).

(** A directory with 101 entries: "a", "aa", ..., up to 101 letters. *)
Definition many_names : list string :=
  map (fun k => string_of_list_ascii (repeat "a"%char k)) (seq 1 101).

Definition w_many : World :=
  mkWorld "/home" [("/big"%string, dirst 2)] [("/big"%string, dirst 2)]
    [("/big"%string, many_names)] users groups (fun _ => true).

(** A listed directory that is not the working directory; [a] is the
    newer entry. *)
Definition w_away : World :=
  let t := [("/home"%string, dirst 1); ("/d"%string, dirst 2);
            ("/d/a"%string, reg 11 1 9 9 9); ("/d/b"%string, reg 12 1 5 5 5)] in
  mkWorld "/home" t t [("/d"%string, ["."; ".."; "a"; "b"]%string); ("/home"%string, [])]
    users groups (fun _ => true).

(** ** The text of [print_with_color] and [print_column_with_color]

    [readlink] reads the targets of symbolic links from a table of its own
    (absolute link path to target); it fills a 256-byte buffer, so a target
    is cut to 255 bytes. *)

Definition Links := list (string * string).

Definition readlink (w : World) (lk : Links) (p : string) : option string :=
  option_map (substring 0 255) (assoc String.eqb (resolve w p) lk).

Definition ESC : ascii := ascii_of_nat 27.

(** ["\033[<code>m%s\033[0m"] *)
Definition colored (code name : string) : string :=
  (String ESC ("[" ++ code ++ "m") ++ name ++ String ESC "[0m")%string.

(** What [print_with_color] prints before its terminator, with the
    terminator given: "   " there, "\n" in [print_column_with_color]. *)
Definition print_with_color_text (w : World) (lk : Links) (fl : Flags) (path : string)
    : option string :=
  let file_name := basename path in
  let path := basename_path path in
  let term := "   "%string in
  match lstat w path with
  | None => None
  | Some file_info =>
    let mode := st_mode file_info in
    Some (if negb (is_no_sort_enabled fl) then
      if S_ISDIR mode then (colored "34" file_name ++ term)%string
      else if S_ISLNK mode then
        match readlink w lk path with
        | Some target_path =>
          if is_long_format_enabled fl then
            match lstat w target_path with
            | None => (colored "36" file_name ++ " -> " ++ target_path ++ term)%string
            | Some target_info =>
              if S_ISDIR (st_mode target_info) then
                (colored "36" file_name ++ " -> " ++ colored "34" target_path ++ term)%string
              else if has (st_mode target_info) S_IXUSR then
                (colored "36" file_name ++ " -> " ++ colored "32" target_path ++ term)%string
              else (colored "36" file_name ++ " -> " ++ target_path ++ term)%string
            end
          else (colored "36" file_name ++ term)%string
        | None => (colored "36" file_name ++ term)%string
        end
      else if has mode S_IXUSR then (colored "32" file_name ++ term)%string
      else (file_name ++ term)%string
    else
      match readlink w lk path with
      | Some target_path =>
        if is_long_format_enabled fl then (file_name ++ " -> " ++ target_path ++ term)%string
        else (file_name ++ term)%string
      | None => (file_name ++ term)%string
      end)
  end.

Definition NL : string := String (ascii_of_nat 10) EmptyString.

Definition print_column_with_color_text (w : World) (lk : Links) (fl : Flags)
    (path : string) : option string :=
  let file_name := basename path in
  let path := basename_path path in
  match lstat w path with
  | None => None
  | Some file_info =>
    let mode := st_mode file_info in
    Some (if negb (is_no_sort_enabled fl) then
      if S_ISDIR mode then (colored "34" file_name ++ NL)%string
      else if S_ISLNK mode then
        match readlink w lk path with
        | Some target_path =>
          if is_long_format_enabled fl then
            match lstat w target_path with
            | None => (colored "36" file_name ++ " -> " ++ target_path ++ NL)%string
            | Some target_info =>
              if S_ISDIR (st_mode target_info) then
                (colored "36" file_name ++ " -> " ++ colored "34" target_path ++ NL)%string
              else if has (st_mode target_info) S_IXUSR then
                (colored "36" file_name ++ " -> " ++ colored "32" target_path ++ NL)%string
              else (colored "36" file_name ++ " -> " ++ target_path ++ NL)%string
            end
          else (colored "36" file_name ++ NL)%string
        | None => (colored "36" file_name ++ NL)%string
        end
      else if has mode S_IXUSR then (colored "32" file_name ++ NL)%string
      else (file_name ++ NL)%string
    else
      match readlink w lk path with
      | Some target_path =>
        if is_long_format_enabled fl then (file_name ++ " -> " ++ target_path ++ NL)%string
        else (file_name ++ NL)%string
      | None => (file_name ++ NL)%string
      end)
  end.

(** ** [list_directories] (the [-d] path) *)

Definition list_directories (w : World) (fl : Flags) (multiArgs : list string)
    : list event :=
  List.concat (map (fun a =>
      match stat w a with
      | None => [Diag "stat failed"]
      | Some _ =>
        if is_long_format_enabled fl then print_longformat w a
        else if is_column_output_enabled fl then print_column_with_color w a
        else print_with_color w a
      end) (qsort compare multiArgs))
  ++ (if negb (is_long_format_enabled fl) && negb (is_column_output_enabled fl)
      then [Newline] else []).

(** ** [is_directory] and [sort_and_display] (myls.c)

    [is_directory] ignores the result of [stat]; when [stat] fails it reads
    an uninitialised [st_mode], which is undefined: [None]. *)
Definition is_directory (w : World) (p : string) : option bool :=
  option_map (fun s => S_ISDIR (st_mode s)) (stat w p).

Inductive sd_event :=
  | Header (p : string)          (** [printf("\n%s:\n", directories[i])] *)
  | Ev (e : event).

(** The two arrays [regular_files] and [directories], in operand order. *)
Fixpoint partition_args (w : World) (ps : list string)
    : option (list string * list string) :=
  match ps with
  | [] => Some ([], [])
  | p :: ps' =>
    match is_directory w p, partition_args w ps' with
    | Some true, Some (fs, ds) => Some (fs, p :: ds)
    | Some false, Some (fs, ds) => Some (p :: fs, ds)
    | _, _ => None
    end
  end.

Definition list_one (w : World) (fl : Flags) (p : string) : list sd_event :=
  if is_long_format_enabled fl then map Ev (list_directory_long_format w fl p)
  else if is_no_option_enabled fl || is_hidden_files_enabled fl then map Ev (do_ls w fl p)
  else [].

Definition sort_and_display (w : World) (fl : Flags) (file_paths : list string)
    : option (list sd_event) :=
  match partition_args w file_paths with
  | None => None
  | Some (regular_files, directories) =>
    let regular_files := qsort compare regular_files in
    let directories := qsort compare directories in
    Some (List.concat (map (list_one w fl) regular_files) ++
          List.concat (map (fun d =>
              (if negb (Nat.eqb (List.length regular_files) 0)
                  || (1 <? List.length file_paths)%nat then [Header d] else [])
              ++ list_one w fl d) directories))
  end.

Fixpoint headers (out : list sd_event) : list string :=
  match out with
  | [] => []
  | Header p :: out' => p :: headers out'
  | Ev _ :: out' => headers out'
  end.

(** ** The operand loop of [main] when no option is given

    [i] and [argCount] are [uint8_t]; [argv] holds [argv[0..argc-1]] and
    [argv[argc]] is NULL.  Each iteration uses one unit of [fuel]; running
    out of fuel is [None]. *)
Definition MAX_ARGS : nat := 100.

Fixpoint collect_args (fuel : nat) (argv : list string) (i argCount : nat)
    (multiArgs : list string) : option (list string) :=
  match fuel with
  | O => None
  | S f =>
    match nth_error argv i with
    | None => Some multiArgs
    | Some a =>
      if (argCount <? MAX_ARGS)%nat
      then collect_args f argv (Nat.modulo (i + 1) 256) (argCount + 1) (multiArgs ++ [a])
      else collect_args f argv (Nat.modulo (i + 1) 256) argCount multiArgs
    end
  end.

(** A C string holds no NUL byte. *)
Fixpoint nul_free (s : string) : bool :=
  match s with
  | EmptyString => true
  | String c r => negb (Ascii.eqb c Ascii.zero) && nul_free r
  end.

(** The two names [compare_with_hidden] singles out. *)
Definition is_dot (s : string) : bool := String.eqb s "." || String.eqb s "..".

(** The order [compare_with_hidden] sorts into: the dot names before all
    others, the others in [strcmp] order. *)
Definition dots_first (a b : string) : Prop :=
  (is_dot b = true -> is_dot a = true) /\
  (is_dot a = false -> is_dot b = false -> strcmp a b <= 0).

Definition is_some {A} (o : option A) : bool :=
  match o with Some _ => true | None => false end.

(** An operand that [sort_and_display] files under [directories]. *)
Definition is_dir_operand (w : World) (p : string) : bool :=
  match is_directory w p with Some true => true | _ => false end.

(** Whether the option letter [c] occurs among those [getopt] returned. *)
Definition has_opt (os : list ascii) (c : ascii) : bool :=
  existsb (fun o => Ascii.eqb o c) os.

(** ** The dispatch of [main] after the options were read

    [directory] is the working directory [getcwd] returned; [multiArgs]
    holds the operands that followed the options.  Output of [main]'s own
    [printf] calls is [MText]. *)
Inductive main_event :=
  | MOut (e : sd_event)
  | MText (s : string).

Definition main_ev (tr : list event) : list main_event := map (fun e => MOut (Ev e)) tr.

Definition main_dispatch (w : World) (fl : Flags) (directory : string)
    (multiArgs : list string) : option (list main_event) :=
  let none := Nat.eqb (List.length multiArgs) 0 in
  let some := (0 <? List.length multiArgs)%nat in
  let nodir := negb (is_directory_option_enabled fl) in
  let other := is_sort_by_time_enabled fl || is_ctime_option_enabled fl
               || is_sort_by_access_time_enabled fl || is_no_sort_enabled fl
               || is_inode_enabled fl || is_column_output_enabled fl in
  if none && is_long_format_enabled fl && nodir
  then Some (main_ev (list_directory_long_format w fl directory))
  else if some && is_long_format_enabled fl && nodir
  then option_map (map MOut) (sort_and_display w fl multiArgs)
  else if none && is_hidden_files_enabled fl && nodir
  then Some (main_ev (do_ls w fl directory))
  else if some && is_hidden_files_enabled fl && nodir
  then option_map (map MOut) (sort_and_display w fl multiArgs)
  else if none && other && nodir
  then Some (main_ev (do_ls w fl directory))
  else if some && other && nodir
  then option_map (map MOut) (sort_and_display w fl multiArgs)
  else if none && is_directory_option_enabled fl
  then Some (if is_no_sort_enabled fl then [MText (String "." NL)]
             else main_ev (print_with_color w ".") ++ [MOut (Ev Newline)])
  else if some && is_directory_option_enabled fl
  then Some (main_ev (list_directories w fl multiArgs))
  else Some [].

(** The orders the time comparators sort into, on what [stat] reports
    for the names they are given; names [stat] cannot find go last. *)
Definition atime_order (w : World) (a b : string) : Prop :=
  (stat w a = None -> stat w b = None) /\
  (forall sa sb, stat w a = Some sa -> stat w b = Some sb ->
   st_atime sb < st_atime sa \/ (st_atime sb = st_atime sa /\ strcmp a b <= 0)).

Definition ctime_order (w : World) (a b : string) : Prop :=
  (stat w a = None -> stat w b = None) /\
  (forall sa sb, stat w a = Some sa -> stat w b = Some sb -> st_ctime sb <= st_ctime sa).

(** What [print_longformat] needs to print a whole line with its name:
    the lookups, [localtime], and the [lstat] of [print_with_color]. *)
Definition long_ok (w : World) (p : string) : Prop :=
  exists st, lstat w p = Some st /\ getpwuid w (st_uid st) <> None /\
             getgrgid w (st_gid st) <> None /\ localtime_ok w (st_mtime st) = true /\
             lstat w (basename_path p) <> None.

(** * General facts *)

Lemma strcmp_antisym : forall a b, strcmp b a = - strcmp a b.
Proof.
  induction a as [|c1 r1 IH]; destruct b as [|c2 r2]; simpl; try lia.
  destruct (Ascii.eqb_spec c1 c2) as [->|Hne].
  - rewrite Ascii.eqb_refl. apply IH.
  - destruct (Ascii.eqb_spec c2 c1) as [->|_]; [congruence|lia].
Qed.

Lemma strcmp_refl : forall a, strcmp a a = 0.
Proof. intro a. pose proof (strcmp_antisym a a). lia. Qed.

Section QsortFacts.
Variable cmp : string -> string -> Z.
Hypothesis cmp_total : forall a b, 0 < cmp a b -> cmp b a <= 0.

Let le a b := cmp a b <= 0.

Lemma merge_nil_r : forall l, merge cmp l [] = l.
Proof. destruct l; reflexivity. Qed.

Lemma merge_cons_cons : forall a l1 b l2,
  merge cmp (a :: l1) (b :: l2) =
  if cmp a b <=? 0 then a :: merge cmp l1 (b :: l2) else b :: merge cmp (a :: l1) l2.
Proof. reflexivity. Qed.

Lemma merge_perm : forall l1 l2, Permutation (l1 ++ l2) (merge cmp l1 l2).
Proof.
  induction l1 as [|a l1 IH1]; intro l2; [reflexivity|].
  induction l2 as [|b l2 IH2].
  - rewrite merge_nil_r, app_nil_r. reflexivity.
  - rewrite merge_cons_cons. destruct (cmp a b <=? 0).
    + simpl. constructor. apply IH1.
    + rewrite <- IH2. apply Permutation_sym, Permutation_middle.
Qed.

Lemma merge_hd : forall x l1 l2, HdRel le x l1 -> HdRel le x l2 ->
  HdRel le x (merge cmp l1 l2).
Proof.
  intros x [|a l1] [|b l2] H1 H2; try assumption.
  rewrite merge_cons_cons. destruct (cmp a b <=? 0).
  - inversion H1; constructor; assumption.
  - inversion H2; constructor; assumption.
Qed.

Lemma merge_sorted : forall l1 l2, Sorted le l1 -> Sorted le l2 ->
  Sorted le (merge cmp l1 l2).
Proof.
  induction l1 as [|a l1 IH1]; intros l2 H1 H2; [assumption|].
  induction l2 as [|b l2 IH2].
  - rewrite merge_nil_r. assumption.
  - rewrite merge_cons_cons. destruct (Z.leb_spec (cmp a b) 0) as [Hab|Hab].
    + apply Sorted_inv in H1 as [H1 Ha].
      constructor; [apply IH1; assumption|].
      apply merge_hd; [assumption|constructor; exact Hab].
    + apply Sorted_inv in H2 as [H2' Hb].
      constructor; [apply IH2; assumption|].
      apply merge_hd; [|assumption].
      constructor. unfold le. apply cmp_total. lia.
Qed.

Lemma msort_perm : forall fuel l, Permutation l (msort_fuel cmp fuel l).
Proof.
  induction fuel as [|f IH]; intro l; [reflexivity|]. simpl.
  destruct (List.length l <=? 1)%nat; [reflexivity|].
  rewrite <- merge_perm, <- !IH, firstn_skipn. reflexivity.
Qed.

Lemma msort_fuel_S : forall f l, msort_fuel cmp (S f) l =
  if (List.length l <=? 1)%nat then l
  else merge cmp (msort_fuel cmp f (firstn (List.length l / 2) l))
                 (msort_fuel cmp f (skipn (List.length l / 2) l)).
Proof. reflexivity. Qed.

Lemma msort_sorted : forall fuel l, (List.length l <= fuel)%nat ->
  Sorted le (msort_fuel cmp fuel l).
Proof.
  induction fuel as [|f IH]; intros l Hl.
  - destruct l; [constructor|simpl in Hl; lia].
  - rewrite msort_fuel_S. destruct (Nat.leb_spec (List.length l) 1) as [H1|H1].
    + destruct l as [|a [|b l]]; [constructor|repeat constructor|simpl in H1; lia].
    + assert (Hd : (1 <= Nat.div (List.length l) 2 < List.length l)%nat).
      { split; [apply Nat.div_le_lower_bound|apply Nat.div_lt]; lia. }
      apply merge_sorted; apply IH.
      * rewrite length_firstn, Nat.min_l; lia.
      * rewrite length_skipn. lia.
Qed.

Lemma qsort_perm : forall l, Permutation l (qsort cmp l).
Proof. intro l. apply msort_perm. Qed.

Lemma qsort_sorted : forall l, Sorted le (qsort cmp l).
Proof. intro l. apply msort_sorted. lia. Qed.
End QsortFacts.

(** * Permission string *)

Lemma has_lor_low_bits : forall m k, 0 <= k < 12 -> has (Z.lor m 4095) (2 ^ k) = true.
Proof.
  intros m k Hk. unfold has.
  destruct (Z.eqb_spec (Z.land (Z.lor m 4095) (2 ^ k)) 0) as [E|E]; [|reflexivity].
  exfalso. apply (f_equal (fun x => Z.testbit x k)) in E.
  rewrite Z.land_spec, Z.lor_spec, Z.pow2_bits_true, Z.bits_0 in E by lia.
  change 4095 with (Z.ones 12) in E.
  rewrite Z.ones_spec_low in E by lia.
  rewrite orb_true_r in E. discriminate.
Qed.

(** C8: the permission string is the [rwxrwxrwx] template with unset bits
    as '-', 's' at owner-execute when setuid is also set, 's' at
    group-execute for setgid, 't' at other-execute for sticky; it has 9
    characters, and with all nine permission bits plus setuid, setgid and
    sticky set it is exactly "rwsrwsrwt". *)
Theorem permissions_format : forall mode,
  permissions mode = perm_spec mode /\ String.length (permissions mode) = 9%nat
  /\ permissions (Z.lor mode 4095) = "rwsrwsrwt"%string.
Proof.
  intro mode.
  assert (Hspec : permissions mode = perm_spec mode).
  { unfold permissions, perm_spec, perm_triple, when.
    destruct (has mode S_IRUSR), (has mode S_IWUSR), (has mode S_IXUSR),
      (has mode S_ISUID), (has mode S_IRGRP), (has mode S_IWGRP), (has mode S_IXGRP),
      (has mode S_ISGID), (has mode S_IROTH), (has mode S_IWOTH), (has mode S_IXOTH),
      (has mode S_ISVTX); reflexivity. }
  split; [exact Hspec|split].
  - rewrite Hspec. unfold perm_spec, perm_triple. reflexivity.
  - unfold permissions.
    assert (Hb : forall b k, b = 2 ^ k -> 0 <= k < 12 -> has (Z.lor mode 4095) b = true)
      by (intros b k ->; apply has_lor_low_bits).
    rewrite (Hb S_IRUSR 8), (Hb S_IWUSR 7), (Hb S_IXUSR 6), (Hb S_ISUID 11),
      (Hb S_IRGRP 5), (Hb S_IWGRP 4), (Hb S_IXGRP 3), (Hb S_ISGID 10),
      (Hb S_IROTH 2), (Hb S_IWOTH 1), (Hb S_IXOTH 0), (Hb S_ISVTX 9)
      by (reflexivity || lia).
    reflexivity.
Qed.

(** * Enumeration *)

Lemma kept_In : forall fl ents n,
  In n (kept fl ents) <-> In n ents /\ ~ omitted fl n.
Proof.
  intros fl ents n. unfold kept, omitted, skip_entry. rewrite filter_In.
  destruct (starts_with_dot n), (is_hidden_files_enabled fl), (is_no_sort_enabled fl);
    simpl; intuition congruence.
Qed.

Lemma read_entries_kept : forall fl ents room es,
  read_entries fl ents room = Some es -> es = kept fl ents.
Proof.
  intro fl. induction ents as [|d rest IH]; intros room es H; simpl in H.
  - injection H as <-. reflexivity.
  - unfold kept. simpl. destruct (skip_entry fl d) eqn:Hs; simpl.
    + apply (IH room). exact H.
    + destruct room as [|room']; [discriminate|].
      destruct (read_entries fl rest room') as [es'|] eqn:Hr; [|discriminate].
      simpl in H. injection H as <-. f_equal. apply (IH room'). exact Hr.
Qed.

Lemma lf_first_pass_done : forall w fl D ents room t0 ns t,
  lf_first_pass w fl D ents room t0 = PassDone ns t ->
  ns = kept fl ents /\ t = t0 + sum_Z (map (stat_size w D) ns)
  /\ Forall (fun n => stat w (join_path D n) <> None) ns
  /\ (long_fits t0 = true -> long_fits t = true).
Proof.
  intros w fl D. induction ents as [|d rest IH]; intros room t0 ns t H;
    cbn [lf_first_pass] in H.
  - injection H as <- <-. simpl. repeat split; [lia|constructor|auto].
  - destruct (skip_entry fl d) eqn:Hs.
    + destruct (IH _ _ _ _ H) as (-> & -> & Hf & Hr).
      unfold kept. simpl. rewrite Hs. simpl. auto.
    + destruct room as [|room']; [discriminate|].
      destruct (stat w (join_path D d)) as [st|] eqn:Hst; [|discriminate].
      destruct (long_fits (t0 + st_size st)) eqn:Hfit; [|discriminate]. cbv iota beta in H.
      destruct (lf_first_pass w fl D rest room' (t0 + st_size st)) as [ns' t'| |] eqn:Hr;
        try discriminate.
      injection H as <- <-.
      destruct (IH _ _ _ _ Hr) as (-> & -> & Hf & Hfits).
      split; [unfold kept; cbn [filter]; rewrite Hs; reflexivity|split; [|split]].
      * cbn [map sum_Z fold_right].
        replace (stat_size w D d) with (st_size st)
          by (unfold stat_size; rewrite Hst; reflexivity).
        unfold sum_Z. lia.
      * constructor; [congruence|exact Hf].
      * intros _. apply Hfits, Hfit.
Qed.

(** C7: an enumerated entry is left out exactly when its name starts with
    '.', show-hidden is unset and no-sort is unset; so with no-sort every
    dotfile, '.' and '..' included, is kept.  This holds for the loop of
    [do_ls] and for the first pass of [list_directory_long_format]. *)
Theorem hidden_filter : forall w fl D ents n,
  (forall es, read_entries fl ents MAX_ENTRIES = Some es ->
     (In n es <-> In n ents /\ ~ omitted fl n)) /\
  (forall ns t, lf_first_pass w fl D ents MAX_LONG 0 = PassDone ns t ->
     (In n ns <-> In n ents /\ ~ omitted fl n)).
Proof.
  intros w fl D ents n. split.
  - intros es H. apply read_entries_kept in H. subst es. apply kept_In.
  - intros ns t H. apply lf_first_pass_done in H as (-> & _). apply kept_In.
Qed.

Lemma hidden_filter_witness :
  read_entries (flags_of_opts ["f"%char]) ["."; ".."; "x"]%string MAX_ENTRIES
    = Some ["."; ".."; "x"]%string /\
  (In "."%string ["."; ".."; "x"]%string <->
   In "."%string ["."; ".."; "x"]%string /\ ~ omitted (flags_of_opts ["f"%char]) ".").
Proof.
  split; [vm_compute; reflexivity|].
  apply (proj1 (hidden_filter w_times (flags_of_opts ["f"%char]) "/home"
                  ["."; ".."; "x"]%string ".") ["."; ".."; "x"]%string).
  vm_compute. reflexivity.
Defined.

(** * Time comparators *)

(** C3 (as amended): when [stat] succeeds for both names,
    [compare_by_access_time] puts the newer atime first and breaks equal
    atimes by ascending [strcmp]; [compare_by_ctime] puts the newer ctime
    first and returns 0 on equal ctimes, with no tie-break by name. *)
Theorem time_comparators : forall w a b sa sb,
  stat w a = Some sa -> stat w b = Some sb ->
  (compare_by_access_time w a b < 0 <->
     st_atime sa > st_atime sb \/ (st_atime sa = st_atime sb /\ strcmp a b < 0)) /\
  (compare_by_access_time w a b > 0 <->
     st_atime sa < st_atime sb \/ (st_atime sa = st_atime sb /\ strcmp a b > 0)) /\
  (compare_by_ctime w a b < 0 <-> st_ctime sa > st_ctime sb) /\
  (compare_by_ctime w a b > 0 <-> st_ctime sa < st_ctime sb) /\
  (compare_by_ctime w a b = 0 <-> st_ctime sa = st_ctime sb).
Proof.
  intros w a b sa sb Ha Hb.
  unfold compare_by_access_time, compare_by_ctime. rewrite Ha, Hb.
  rewrite !Z.gtb_ltb.
  destruct (Z.ltb_spec (st_atime sa) (st_atime sb));
    [|destruct (Z.ltb_spec (st_atime sb) (st_atime sa))];
  (destruct (Z.ltb_spec (st_ctime sb) (st_ctime sa));
    [|destruct (Z.ltb_spec (st_ctime sa) (st_ctime sb))]);
  repeat split; intros; lia.
Qed.

Lemma time_comparators_witness :
  stat w_ctime "a" = Some (reg 11 1 0 0 5) /\ stat w_ctime "b" = Some (reg 12 1 0 0 5) /\
  (compare_by_ctime w_ctime "a" "b" = 0 <-> 5 = 5).
Proof.
  split; [reflexivity|split; [reflexivity|]].
  exact (proj2 (proj2 (proj2 (proj2
           (time_comparators w_ctime "a" "b" _ _ eq_refl eq_refl))))).
Defined.

(** C3, as stated, fails: two files with equal ctimes are not ordered by
    ascending name under the change-time comparator; [compare_by_ctime]
    returns 0 for them and [qsort] keeps "b" before "a". *)
Lemma ctime_tie_not_by_name :
  stat w_ctime "a" = Some (reg 11 1 0 0 5) /\ stat w_ctime "b" = Some (reg 12 1 0 0 5) /\
  ~ (compare_by_ctime w_ctime "a" "b" < 0 <->
       5 > 5 \/ (5 = 5 /\ strcmp "a" "b" < 0)) /\
  qsort (compare_by_ctime w_ctime) ["b"; "a"]%string = ["b"; "a"]%string.
Proof.
  split; [reflexivity|split; [reflexivity|split; [|reflexivity]]].
  assert (E : compare_by_ctime w_ctime "a" "b" = 0) by reflexivity.
  assert (S : strcmp "a" "b" = -1) by reflexivity.
  rewrite E, S. intros [_ H].
  assert (F : 0 < 0) by (apply H; right; split; lia). lia.
Qed.

(** When the comparator answers "greater" for every pair it is asked
    about, glibc's merge sort always takes from the right run, and the
    array comes out reversed. *)
Section QsortAllGreater.
Variable cmp : string -> string -> Z.
Variable P : string -> Prop.
Hypothesis cmp_gt : forall a b, P a -> 0 < cmp a b.



End QsortAllGreater.



(** * Long-format ordering *)

Lemma compare_case_insensitive_total : forall a b,
  0 < compare_case_insensitive a b -> compare_case_insensitive b a <= 0.
Proof. intros a b. unfold compare_case_insensitive. rewrite strcmp_antisym. lia. Qed.

(** C5 (as amended): on the long-format path, when none of the time
    options [-t], [-u], [-c] is given and sorting is not disabled, the
    names are sorted with [compare_case_insensitive] (both names lowered,
    then [strcmp], no hidden-first rule) unless show-hidden is set, in
    which case [compare_with_hidden] is used; the case-insensitive result
    is a permutation of the names ordered by their lowered forms, and
    {"Banana", "apple", "Cherry"} comes out as ["apple", "Banana", "Cherry"]. *)
Theorem long_default_order : forall w fl names,
  is_sort_by_time_enabled fl = false -> is_sort_by_access_time_enabled fl = false ->
  is_ctime_option_enabled fl = false -> is_no_sort_enabled fl = false ->
  lf_sort w fl names =
    (if is_hidden_files_enabled fl then qsort compare_with_hidden names
     else qsort compare_case_insensitive names) /\
  Permutation names (qsort compare_case_insensitive names) /\
  Sorted (fun a b => strcmp (lower a) (lower b) <= 0) (qsort compare_case_insensitive names) /\
  qsort compare_case_insensitive ["Banana"; "apple"; "Cherry"]%string
    = ["apple"; "Banana"; "Cherry"]%string.
Proof.
  intros w fl names Ht _ _ Hn.
  split; [|split; [|split]].
  - unfold lf_sort. rewrite Ht, Hn.
    destruct (is_hidden_files_enabled fl); reflexivity.
  - apply qsort_perm.
  - exact (qsort_sorted compare_case_insensitive compare_case_insensitive_total names).
  - reflexivity.
Qed.

Lemma long_default_order_witness :
  lf_sort w_fruit (flags_of_opts ["l"%char]) ["Banana"; "apple"; "Cherry"]%string
    = ["apple"; "Banana"; "Cherry"]%string.
Proof.
  destruct (long_default_order w_fruit (flags_of_opts ["l"%char])
              ["Banana"; "apple"; "Cherry"]%string eq_refl eq_refl eq_refl eq_refl)
    as [E [_ [_ F]]].
  rewrite E. exact F.
Defined.

(** C5, as stated, fails: [ls -la] on a directory holding "Banana",
    "apple" and "Cherry" uses the hidden-first comparator, which is
    case-sensitive, and prints "Cherry" before "apple". *)
Lemma long_hidden_is_case_sensitive :
  printed_names (list_directory_long_format w_fruit (flags_of_opts ["l"; "a"]%char) "/d")
    = ["/d/."; "/d/.."; "/d/Banana"; "/d/Cherry"; "/d/apple"]%string /\
  0 < compare_case_insensitive "Cherry" "apple".
Proof. split; vm_compute; reflexivity. Qed.

(** * The [total] header *)

Lemma no_total_in_entry : forall w fl p n,
  ~ In (Total n) (print_inode w fl p ++ print_longformat w p).
Proof.
  intros w fl p n. unfold print_inode, print_longformat, print_with_color.
  repeat match goal with
         | |- context [match ?x with _ => _ end] => destruct x
         | |- context [if ?b then _ else _] => destruct b
         end; simpl; intuition discriminate.
Qed.

Lemma lf_sort_perm : forall w fl names, Permutation names (lf_sort w fl names).
Proof.
  intros w fl names. unfold lf_sort.
  repeat match goal with |- context [if ?b then _ else _] => destruct b end;
    try apply qsort_perm; reflexivity.
Qed.

(** When the long listing of a directory prints [total N], the first pass
    [stat]ed every kept entry without failure ([stat] follows symbolic
    links), the sum of the [st_size] values it reported fits a [long], and
    N is that sum divided by 1024, truncated toward zero. *)
Theorem long_total : forall w fl D n,
  In (Total n) (list_directory_long_format w fl D) ->
  exists ents, opendir w D = Some ents /\
    Forall (fun nm => stat w (join_path D nm) <> None) (kept fl ents) /\
    long_fits (sum_Z (map (stat_size w D) (kept fl ents))) = true /\
    n = Z.quot (sum_Z (map (stat_size w D) (kept fl ents))) 1024.
Proof.
  intros w fl D n H. unfold list_directory_long_format in H.
  destruct (opendir w D) as [ents|] eqn:Ho.
  - exists ents. split; [reflexivity|].
    destruct (lf_first_pass w fl D ents MAX_LONG 0) as [ns t| |] eqn:Hp;
      [|simpl in H; intuition discriminate|simpl in H; intuition discriminate].
    apply lf_first_pass_done in Hp as (-> & -> & Hf & Hr).
    destruct H as [H|[H|[H|H]]]; try discriminate.
    + injection H as <-. split; [exact Hf|split; [apply Hr; reflexivity|f_equal]].
    + exfalso. apply in_concat in H as (l & Hl & Hin).
      apply in_map_iff in Hl as (x & <- & _).
      exact (no_total_in_entry _ _ _ _ Hin).
  - exfalso. destruct (stat w D) as [st|]; [|simpl in H; intuition discriminate].
    destruct (negb (S_ISREG (st_mode st))); [simpl in H; intuition discriminate|].
    exact (no_total_in_entry _ _ _ _ H).
Qed.

Lemma long_total_witness :
  In (Total 4) (list_directory_long_format w_link (flags_of_opts ["l"%char]) "/d") /\
  4 = Z.quot (sum_Z (map (stat_size w_link "/d")
                       (kept (flags_of_opts ["l"%char]) ["."; ".."; "big"; "lnk"]%string))) 1024.
Proof.
  assert (H : In (Total 4) (list_directory_long_format w_link (flags_of_opts ["l"%char]) "/d"))
    by (vm_compute; tauto).
  split; [exact H|].
  destruct (long_total _ _ _ _ H) as (ents & Ho & _ & _ & Hn).
  vm_compute in Ho. injection Ho as <-. exact Hn.
Defined.

(** C9: the first pass adds up the sizes [stat] reports, and [stat]
    follows symbolic links, while each line shows the size [lstat]
    reports.  With a 3-byte symbolic link to a 2048-byte file next to
    another 2048-byte file, the listed sizes are 2048 and 3 (the floor of
    their sum over 1024 is 2), but the header is [total 4]. *)
Lemma total_counts_link_target :
  In (Total 4) (list_directory_long_format w_link (flags_of_opts ["l"%char]) "/d") /\
  row_sizes (list_directory_long_format w_link (flags_of_opts ["l"%char]) "/d") = [2048; 3] /\
  ~ (forall n, In (Total n) (list_directory_long_format w_link (flags_of_opts ["l"%char]) "/d") ->
       n = Z.quot (sum_Z (row_sizes (list_directory_long_format w_link
                                       (flags_of_opts ["l"%char]) "/d"))) 1024).
Proof.
  split; [vm_compute; tauto|split; [vm_compute; reflexivity|]].
  intro Hc. specialize (Hc 4 ltac:(vm_compute; tauto)). vm_compute in Hc. discriminate.
Qed.

(** * Behaviour at concrete inputs *)

(** C1: [-t] sets the access-time flag too (the ['t'] case falls into
    ['u']), and both listing routines then sort with
    [compare_by_access_time]: [x] (mtime 1, atime 2) is listed before [y]
    (mtime 2, atime 1), i.e. oldest mtime first. *)
Theorem mtime_option_sorts_by_atime :
  is_sort_by_access_time_enabled (flags_of_opts ["t"%char]) = true /\
  stat w_times "x" = Some (reg 11 10 2 1 0) /\ stat w_times "y" = Some (reg 12 10 1 2 0) /\
  st_mtime (reg 11 10 2 1 0) < st_mtime (reg 12 10 1 2 0) /\
  printed_names (do_ls w_times (flags_of_opts ["t"%char]) "/home")
    = ["/home/x"; "/home/y"]%string /\
  printed_names (list_directory_long_format w_times (flags_of_opts ["l"; "t"]%char) "/home")
    = ["/home/x"; "/home/y"]%string.
Proof. repeat split; vm_compute; reflexivity. Qed.

(** C2: in the long listing a failing [stat] of one entry (a dangling
    symbolic link) ends the whole listing: no [total], no line for the
    entries before or after it.  [do_ls] on the same directory lists all
    three entries. *)
Theorem long_listing_stops_at_stat_failure :
  list_directory_long_format w_dangling (flags_of_opts ["l"%char]) "/d"
    = [DirOpen "/d"; Diag "stat failed"]%string /\
  lstat w_dangling "/d/a" <> None /\ lstat w_dangling "/d/z" <> None /\
  printed_names (do_ls w_dangling flags0 "/d") = ["/d/a"; "/d/dangling"; "/d/z"]%string.
Proof. repeat split; vm_compute; try reflexivity; discriminate. Qed.

(** C6: on that early return the directory handle opened by
    [list_directory_long_format] is never closed. *)
Theorem long_listing_leaks_dir_handle :
  In (DirOpen "/d") (list_directory_long_format w_dangling (flags_of_opts ["l"%char]) "/d") /\
  ~ In (DirClose "/d") (list_directory_long_format w_dangling (flags_of_opts ["l"%char]) "/d").
Proof.
  split; vm_compute; [tauto|]. intros [H|[H|[]]]; discriminate.
Qed.

(** C4: [compare_with_hidden] answers "less" whenever its first argument is
    "." or "..": it is not irreflexive and not antisymmetric on "." and
    "..", and the result of the sort depends on the [readdir] order. *)
Theorem hidden_first_inconsistent :
  compare_with_hidden "." "." = -1 /\
  compare_with_hidden "." ".." = -1 /\ compare_with_hidden ".." "." = -1 /\
  qsort compare_with_hidden ["b"; "."; "a"; ".."]%string = ["."; ".."; "a"; "b"]%string /\
  qsort compare_with_hidden [".."; "b"; "."; "a"]%string = [".."; "."; "a"; "b"]%string /\
  printed_names (do_ls w_dots (flags_of_opts ["a"%char]) "/d")
    = ["/d/.."; "/d/."; "/d/a"; "/d/b"]%string.
Proof. repeat split; vm_compute; reflexivity. Qed.

(** * Further properties of the code *)

(** ** [strcmp] and the comparators *)

Lemma byte_inj : forall c d, byte c = byte d -> c = d.
Proof.
  intros c d H. unfold byte in H. apply Nat2Z.inj in H.
  rewrite <- (ascii_nat_embedding c), <- (ascii_nat_embedding d), H. reflexivity.
Qed.

Lemma byte_zero : forall c, byte c = 0 -> c = Ascii.zero.
Proof. intros c H. apply byte_inj. exact H. Qed.

Lemma byte_nonneg : forall c, 0 <= byte c.
Proof. intro c. unfold byte. lia. Qed.

Lemma strcmp_zero_iff : forall a b, nul_free a = true -> nul_free b = true ->
  strcmp a b = 0 <-> a = b.
Proof.
  induction a as [|c1 r1 IH]; destruct b as [|c2 r2]; simpl; intros Ha Hb;
    split; intro H; try congruence.
  - apply andb_true_iff in Hb as [Hb _]. assert (E : byte c2 = 0) by lia.
    apply byte_zero in E. subst. discriminate.
  - apply andb_true_iff in Ha as [Ha _]. apply byte_zero in H. subst. discriminate.
  - apply andb_true_iff in Ha as [_ Ha]. apply andb_true_iff in Hb as [_ Hb].
    destruct (Ascii.eqb_spec c1 c2) as [->|Hne].
    + f_equal. apply IH; assumption.
    + exfalso. apply Hne, byte_inj. lia.
  - injection H as -> ->. rewrite Ascii.eqb_refl. apply strcmp_refl.
Qed.

Lemma strcmp_lt_trans : forall a b c, strcmp a b < 0 -> strcmp b c < 0 -> strcmp a c < 0.
Proof.
  induction a as [|a0 ar IH]; intros b c H1 H2.
  - destruct b as [|b0 br]; simpl in H1; [lia|].
    destruct c as [|c0 cr]; simpl in H2 |- *.
    + pose proof (byte_nonneg b0). lia.
    + pose proof (byte_nonneg b0). pose proof (byte_nonneg c0).
      destruct (Ascii.eqb_spec b0 c0) as [->|]; lia.
  - destruct b as [|b0 br]; simpl in H1; [pose proof (byte_nonneg a0); lia|].
    destruct c as [|c0 cr]; simpl in H2 |- *; [pose proof (byte_nonneg b0); lia|].
    destruct (Ascii.eqb_spec a0 b0) as [->|Hab], (Ascii.eqb_spec b0 c0) as [->|Hbc].
    + exact (IH _ _ H1 H2).
    + lia.
    + destruct (Ascii.eqb_spec a0 c0); [contradiction|lia].
    + destruct (Ascii.eqb_spec a0 c0) as [->|]; lia.
Qed.

Lemma nul_free_lower : forall s, nul_free s = true -> nul_free (lower s) = true.
Proof.
  induction s as [|c r IH]; simpl; [reflexivity|].
  intro H. apply andb_true_iff in H as [Hc Hr].
  rewrite (IH Hr), andb_true_r.
  unfold tolower.
  destruct ((65 <=? nat_of_ascii c)%nat && (nat_of_ascii c <=? 90)%nat) eqn:E; [|exact Hc].
  apply andb_true_iff in E as [E1 E2]. apply Nat.leb_le in E1, E2.
  destruct (Ascii.eqb_spec (ascii_of_nat (nat_of_ascii c + 32)) Ascii.zero) as [Z|]; [|reflexivity].
  apply (f_equal nat_of_ascii) in Z. rewrite nat_ascii_embedding in Z by lia.
  change (nat_of_ascii Ascii.zero) with 0%nat in Z. lia.
Qed.

(** [compare] (plain [strcmp], used to sort operands) is a strict total
    order on C strings: antisymmetric in sign, transitive, and 0 exactly on
    equal strings. *)
Theorem compare_strict_total_order : forall a b c,
  nul_free a = true -> nul_free b = true ->
  compare b a = - compare a b /\ (compare a b = 0 <-> a = b) /\
  (compare a b < 0 -> compare b c < 0 -> compare a c < 0).
Proof.
  intros a b c Ha Hb. unfold compare.
  split; [apply strcmp_antisym|split; [apply strcmp_zero_iff; assumption|]].
  apply strcmp_lt_trans.
Qed.

Lemma compare_strict_total_order_witness :
  nul_free "b" = true /\ nul_free "a" = true /\ compare "a" "b" = - compare "b" "a".
Proof.
  split; [reflexivity|split; [reflexivity|]].
  exact (proj1 (compare_strict_total_order "b" "a" "c" eq_refl eq_refl)).
Defined.

(** [compare_case_insensitive] is a total preorder: antisymmetric in sign,
    transitive, and two names tie exactly when they are equal once folded
    to lower case (e.g. "README" and "readme"), so [qsort] may put such
    names in either order. *)
Theorem case_insensitive_preorder : forall a b c,
  nul_free a = true -> nul_free b = true ->
  compare_case_insensitive b a = - compare_case_insensitive a b /\
  (compare_case_insensitive a b = 0 <-> lower a = lower b) /\
  (compare_case_insensitive a b < 0 -> compare_case_insensitive b c < 0 ->
   compare_case_insensitive a c < 0).
Proof.
  intros a b c Ha Hb. unfold compare_case_insensitive.
  split; [apply strcmp_antisym|split].
  - apply strcmp_zero_iff; apply nul_free_lower; assumption.
  - apply strcmp_lt_trans.
Qed.

Lemma case_insensitive_preorder_witness :
  nul_free "README" = true /\ nul_free "readme" = true /\
  (compare_case_insensitive "README" "readme" = 0 <-> lower "README" = lower "readme").
Proof.
  split; [reflexivity|split; [reflexivity|]].
  exact (proj1 (proj2 (case_insensitive_preorder "README" "readme" "" eq_refl eq_refl))).
Defined.

(** ** Sorting: generic facts *)

Section QsortRel.
Variable cmp : string -> string -> Z.
Variable R : string -> string -> Prop.
Hypothesis R_le : forall a b, cmp a b <= 0 -> R a b.
Hypothesis R_gt : forall a b, 0 < cmp a b -> R b a.

Lemma merge_hd_R : forall x l1 l2, HdRel R x l1 -> HdRel R x l2 ->
  HdRel R x (merge cmp l1 l2).
Proof.
  intros x [|a l1] [|b l2] H1 H2; try assumption.
  rewrite merge_cons_cons. destruct (cmp a b <=? 0).
  - inversion H1; constructor; assumption.
  - inversion H2; constructor; assumption.
Qed.

Lemma merge_sorted_R : forall l1 l2, Sorted R l1 -> Sorted R l2 ->
  Sorted R (merge cmp l1 l2).
Proof.
  induction l1 as [|a l1 IH1]; intros l2 H1 H2; [assumption|].
  induction l2 as [|b l2 IH2].
  - rewrite merge_nil_r. assumption.
  - rewrite merge_cons_cons. destruct (Z.leb_spec (cmp a b) 0) as [Hab|Hab].
    + apply Sorted_inv in H1 as [H1 Ha].
      constructor; [apply IH1; assumption|].
      apply merge_hd_R; [assumption|constructor; apply R_le; exact Hab].
    + apply Sorted_inv in H2 as [H2' Hb].
      constructor; [apply IH2; assumption|].
      apply merge_hd_R; [|assumption].
      constructor. apply R_gt. exact Hab.
Qed.

Lemma msort_sorted_R : forall fuel l, (List.length l <= fuel)%nat ->
  Sorted R (msort_fuel cmp fuel l).
Proof.
  induction fuel as [|f IH]; intros l Hl.
  - destruct l; [constructor|simpl in Hl; lia].
  - rewrite msort_fuel_S. destruct (Nat.leb_spec (List.length l) 1) as [H1|H1].
    + destruct l as [|a [|b l]]; [constructor|repeat constructor|simpl in H1; lia].
    + assert (Hd : (1 <= Nat.div (List.length l) 2 < List.length l)%nat).
      { split; [apply Nat.div_le_lower_bound|apply Nat.div_lt]; lia. }
      apply merge_sorted_R; apply IH.
      * rewrite length_firstn, Nat.min_l; lia.
      * rewrite length_skipn. lia.
Qed.

Lemma qsort_sorted_R : forall l, Sorted R (qsort cmp l).
Proof. intro l. apply msort_sorted_R. lia. Qed.
End QsortRel.

Section SortedUnique.
Variable A : Type.
Variable R : A -> A -> Prop.
Variable P : A -> Prop.

Lemma sorted_hd_forall :
  (forall a b c, P a -> P b -> P c -> R a b -> R b c -> R a c) ->
  forall l a, P a -> Forall P l -> Sorted R l -> HdRel R a l -> Forall (R a) l.
Proof.
  intro Htr. induction l as [|b l IH]; intros a Pa Pl Sl Hd; constructor.
  - inversion Hd; assumption.
  - pose proof (Forall_inv Pl) as Pb. apply Forall_inv_tail in Pl.
    apply Sorted_inv in Sl as [Sl Hb]. apply IH; auto.
    destruct l as [|c l]; constructor.
    inversion Hd as [|? ? Hab]; inversion Hb as [|? ? Hbc]; subst.
    apply (Htr a b c); auto. exact (Forall_inv Pl).
Qed.

Lemma sorted_strongly :
  (forall a b c, P a -> P b -> P c -> R a b -> R b c -> R a c) ->
  forall l, Forall P l -> Sorted R l -> StronglySorted R l.
Proof.
  intros Htr. induction l as [|a l IH]; intros Pl Sl; constructor.
  - apply IH; [exact (Forall_inv_tail Pl)|exact (proj1 (Sorted_inv Sl))].
  - apply sorted_hd_forall; auto.
    + exact (Forall_inv Pl).
    + exact (Forall_inv_tail Pl).
    + exact (proj1 (Sorted_inv Sl)).
    + exact (proj2 (Sorted_inv Sl)).
Qed.

Lemma strongly_sorted_unique :
  (forall a b, P a -> P b -> R a b -> R b a -> a = b) ->
  forall l l', Forall P l -> StronglySorted R l -> StronglySorted R l' ->
  Permutation l l' -> l = l'.
Proof.
  intro Hanti. induction l as [|a l IH]; intros l' Pl S S' Hp.
  - symmetry. apply Permutation_nil. exact Hp.
  - destruct l' as [|b l'].
    { apply Permutation_sym, Permutation_nil in Hp. discriminate. }
    apply StronglySorted_inv in S as [S Ha]. apply StronglySorted_inv in S' as [S' Hb].
    assert (Eab : a = b).
    { assert (Ia : In a (b :: l')) by (eapply Permutation_in; [exact Hp|left; reflexivity]).
      assert (Ib : In b (a :: l))
        by (eapply Permutation_in; [apply Permutation_sym; exact Hp|left; reflexivity]).
      destruct Ia as [->|Ia]; [reflexivity|]. destruct Ib as [->|Ib]; [reflexivity|].
      rewrite Forall_forall in Pl, Ha, Hb.
      apply Hanti; [apply Pl; left; reflexivity|apply Pl; right; exact Ib|
        apply Ha; exact Ib|apply Hb; exact Ia]. }
    subst b. f_equal. apply IH; auto.
    + exact (Forall_inv_tail Pl).
    + exact (Permutation_cons_inv Hp).
Qed.
End SortedUnique.

Lemma Permutation_filter_bool : forall (f : string -> bool) l l',
  Permutation l l' -> Permutation (filter f l) (filter f l').
Proof.
  intros f l l' H. induction H; simpl.
  - constructor.
  - destruct (f x); [constructor|]; assumption.
  - destruct (f x), (f y); try constructor; reflexivity.
  - etransitivity; eassumption.
Qed.

Lemma Forall_perm : forall (P : string -> Prop) l l', Permutation l l' -> Forall P l -> Forall P l'.
Proof.
  intros P l l' Hp H. rewrite Forall_forall in *. intros x Hx.
  apply H. apply (Permutation_in x (Permutation_sym Hp) Hx).
Qed.

Lemma strcmp_le_trans : forall a b c, nul_free a = true -> nul_free b = true ->
  nul_free c = true -> strcmp a b <= 0 -> strcmp b c <= 0 -> strcmp a c <= 0.
Proof.
  intros a b c Ha Hb Hc H1 H2.
  destruct (Z.eq_dec (strcmp a b) 0) as [E1|E1].
  - apply strcmp_zero_iff in E1; [subst; exact H2|assumption|assumption].
  - destruct (Z.eq_dec (strcmp b c) 0) as [E2|E2].
    + apply strcmp_zero_iff in E2; [subst; exact H1|assumption|assumption].
    + assert (strcmp a c < 0) by (apply strcmp_lt_trans with b; lia). lia.
Qed.

Lemma qsort_compare_perm_eq : forall l l', Forall (fun s => nul_free s = true) l ->
  Permutation l l' -> qsort compare l = qsort compare l'.
Proof.
  intros l l' Hl Hp.
  assert (Htot : forall a b, 0 < compare a b -> compare b a <= 0)
    by (intros a b; unfold compare; rewrite (strcmp_antisym a b); lia).
  assert (Hl' : Forall (fun s => nul_free s = true) l') by (apply (Forall_perm _ l); assumption).
  assert (Htr : forall a b c, nul_free a = true -> nul_free b = true -> nul_free c = true ->
     compare a b <= 0 -> compare b c <= 0 -> compare a c <= 0)
    by (unfold compare; apply strcmp_le_trans).
  apply (strongly_sorted_unique string (fun a b => compare a b <= 0)
           (fun s => nul_free s = true)).
  - intros a b Ha Hb H1 H2. apply strcmp_zero_iff; auto.
    unfold compare in *. rewrite (strcmp_antisym a b) in H2. lia.
  - apply (Forall_perm _ l); [apply qsort_perm|exact Hl].
  - apply sorted_strongly with (P := fun s => nul_free s = true); [exact Htr| |].
    + apply (Forall_perm _ l); [apply qsort_perm|exact Hl].
    + apply qsort_sorted. exact Htot.
  - apply sorted_strongly with (P := fun s => nul_free s = true); [exact Htr| |].
    + apply (Forall_perm _ l'); [apply qsort_perm|exact Hl'].
    + apply qsort_sorted. exact Htot.
  - rewrite <- !qsort_perm. exact Hp.
Qed.

(** ** Operands: [list_directories] and [sort_and_display] *)

Lemma partition_args_filter : forall w ps,
  partition_args w ps =
  if forallb (fun p => is_some (is_directory w p)) ps
  then Some (filter (fun p => negb (is_dir_operand w p)) ps, filter (is_dir_operand w) ps)
  else None.
Proof.
  intros w ps. induction ps as [|p ps IH]; [reflexivity|].
  simpl. rewrite IH. unfold is_dir_operand.
  destruct (is_directory w p) as [[|]|]; simpl;
    destruct (forallb (fun p => is_some (is_directory w p)) ps); reflexivity.
Qed.

Lemma forallb_perm : forall (f : string -> bool) l l', Permutation l l' ->
  forallb f l = forallb f l'.
Proof.
  intros f l l' H. induction H; simpl; try reflexivity.
  - rewrite IHPermutation. reflexivity.
  - destruct (f x), (f y); reflexivity.
  - congruence.
Qed.

Lemma Forall_filter_nul : forall (f : string -> bool) l,
  Forall (fun s => nul_free s = true) l -> Forall (fun s => nul_free s = true) (filter f l).
Proof.
  intros f l H. rewrite Forall_forall in *. intros x Hx.
  apply filter_In in Hx. apply H, Hx.
Qed.

(** Neither [list_directories] (the [-d] path) nor [sort_and_display]
    depends on the order in which the operands are given: both sort them
    with [compare] first, and [strcmp] is a strict total order on C
    strings. *)
Theorem operand_order_irrelevant : forall w fl args args',
  Forall (fun s => nul_free s = true) args -> Permutation args args' ->
  list_directories w fl args = list_directories w fl args' /\
  sort_and_display w fl args = sort_and_display w fl args'.
Proof.
  intros w fl args args' Hn Hp. split.
  - unfold list_directories. rewrite (qsort_compare_perm_eq args args' Hn Hp). reflexivity.
  - unfold sort_and_display. rewrite !partition_args_filter.
    rewrite (forallb_perm _ args args' Hp).
    destruct (forallb (fun p => is_some (is_directory w p)) args'); [|reflexivity].
    cbv beta iota zeta.
    rewrite (qsort_compare_perm_eq (filter (fun p => negb (is_dir_operand w p)) args)
               (filter (fun p => negb (is_dir_operand w p)) args'))
      by (apply Forall_filter_nul, Hn || apply Permutation_filter_bool, Hp).
    rewrite (qsort_compare_perm_eq (filter (is_dir_operand w) args)
               (filter (is_dir_operand w) args'))
      by (apply Forall_filter_nul, Hn || apply Permutation_filter_bool, Hp).
    rewrite (Permutation_length Hp). reflexivity.
Qed.

Lemma operand_order_irrelevant_witness :
  Forall (fun s => nul_free s = true) ["/d/apple"; "/d/Banana"]%string /\
  Permutation ["/d/apple"; "/d/Banana"]%string ["/d/Banana"; "/d/apple"]%string /\
  list_directories w_fruit flags0 ["/d/apple"; "/d/Banana"]%string =
    list_directories w_fruit flags0 ["/d/Banana"; "/d/apple"]%string.
Proof.
  assert (H1 : Forall (fun s => nul_free s = true) ["/d/apple"; "/d/Banana"]%string)
    by (repeat constructor).
  assert (H2 : Permutation ["/d/apple"; "/d/Banana"]%string ["/d/Banana"; "/d/apple"]%string) by constructor.
  split; [exact H1|split; [exact H2|]].
  exact (proj1 (operand_order_irrelevant w_fruit flags0 _ _ H1 H2)).
Defined.

Lemma headers_app : forall a b, headers (a ++ b) = headers a ++ headers b.
Proof.
  induction a as [|[p|e] a IH]; intro b; simpl; [reflexivity| |]; rewrite IH; reflexivity.
Qed.

Lemma headers_map_Ev : forall tr, headers (map Ev tr) = [].
Proof. induction tr; simpl; auto. Qed.

Lemma headers_list_one : forall w fl p, headers (list_one w fl p) = [].
Proof.
  intros w fl p. unfold list_one.
  destruct (is_long_format_enabled fl); [apply headers_map_Ev|].
  destruct (is_no_option_enabled fl || is_hidden_files_enabled fl);
    [apply headers_map_Ev|reflexivity].
Qed.

Lemma headers_files : forall w fl fs,
  headers (List.concat (map (list_one w fl) fs)) = [].
Proof.
  intros w fl fs. induction fs as [|f fs IH]; [reflexivity|].
  simpl. rewrite headers_app, headers_list_one, IH. reflexivity.
Qed.

Lemma headers_dirs : forall w fl (b : bool) ds,
  headers (List.concat (map (fun d => (if b then [Header d] else []) ++ list_one w fl d) ds))
  = if b then ds else [].
Proof.
  intros w fl b ds. induction ds as [|d ds IH]; [destruct b; reflexivity|].
  simpl. rewrite headers_app, IH, headers_app, headers_list_one, app_nil_r.
  destruct b; reflexivity.
Qed.

Lemma filter_negb_nil : forall (f : string -> bool) l,
  forallb f l = true -> filter (fun p => negb (f p)) l = [].
Proof.
  intros f l H. induction l as [|x l IH]; [reflexivity|].
  simpl in H |- *. apply andb_true_iff in H as [Hx Hl]. rewrite Hx. simpl. apply IH, Hl.
Qed.

Lemma forallb_filter_negb : forall (f : string -> bool) l,
  filter (fun p => negb (f p)) l = [] -> forallb f l = true.
Proof.
  intros f l H. induction l as [|x l IH]; [reflexivity|].
  simpl in H |- *. destruct (f x); simpl in H |- *; [apply IH, H|discriminate].
Qed.

(** When every operand can be [stat]ed, [sort_and_display] prints a
    ["\n<dir>:"] header before each directory operand, in [strcmp] order,
    unless the operands are a single directory (or none): then no header
    at all. *)
Theorem sort_and_display_headers : forall w fl ps,
  Forall (fun p => stat w p <> None) ps ->
  exists out, sort_and_display w fl ps = Some out /\
    headers out =
      if (List.length ps <? 2)%nat && forallb (is_dir_operand w) ps then []
      else qsort compare (filter (is_dir_operand w) ps).
Proof.
  intros w fl ps Hs. unfold sort_and_display. rewrite partition_args_filter.
  replace (forallb (fun p => is_some (is_directory w p)) ps) with true.
  2:{ symmetry. apply forallb_forall. intros x Hx. rewrite Forall_forall in Hs.
      unfold is_directory. destruct (stat w x) eqn:E; [reflexivity|]. exfalso. exact (Hs x Hx E). }
  cbv beta iota zeta. eexists. split; [reflexivity|].
  rewrite headers_app, headers_files, headers_dirs. simpl.
  rewrite <- (Permutation_length (qsort_perm compare _)).
  destruct (forallb (is_dir_operand w) ps) eqn:Ha.
  - rewrite (filter_negb_nil _ _ Ha). simpl. rewrite andb_true_r.
    destruct (List.length ps <? 2)%nat eqn:Hl; apply Nat.ltb_lt in Hl || apply Nat.ltb_ge in Hl.
    + destruct (Nat.ltb_spec 1 (List.length ps)); [lia|].
      destruct ps as [|p [|q ps]]; [reflexivity|reflexivity|simpl in Hl; lia].
    + destruct (Nat.ltb_spec 1 (List.length ps)); [reflexivity|lia].
  - rewrite andb_false_r.
    destruct (filter (fun p => negb (is_dir_operand w p)) ps) eqn:Hf.
    + apply forallb_filter_negb in Hf. congruence.
    + reflexivity.
Qed.

Lemma sort_and_display_headers_witness :
  Forall (fun p => stat w_away p <> None) ["/home"; "/d"]%string /\
  exists out, sort_and_display w_away (flags_of_opts ["a"%char]) ["/home"; "/d"]%string
                = Some out /\
    headers out = ["/d"; "/home"]%string.
Proof.
  assert (H : Forall (fun p => stat w_away p <> None) ["/home"; "/d"]%string)
    by (repeat constructor; vm_compute; discriminate).
  split; [exact H|].
  destruct (sort_and_display_headers w_away (flags_of_opts ["a"%char]) _ H) as [out [E Hh]].
  exists out. split; [exact E|]. rewrite Hh. vm_compute. reflexivity.
Defined.

Lemma forallb_false_ex : forall (f : string -> bool) l,
  forallb f l = false -> exists x, In x l /\ f x = false.
Proof.
  intros f l H. induction l as [|x l IH]; [discriminate|].
  simpl in H. destruct (f x) eqn:Hx.
  - destruct (IH H) as [y [Hy Hf]]. exists y. split; [right; exact Hy|exact Hf].
  - exists x. split; [left; reflexivity|exact Hx].
Qed.

(** [sort_and_display] reads the mode of an operand whose [stat] failed
    (undefined) exactly when some operand cannot be [stat]ed. *)
Theorem sort_and_display_undefined : forall w fl ps,
  sort_and_display w fl ps = None <-> exists p, In p ps /\ stat w p = None.
Proof.
  intros w fl ps. unfold sort_and_display. rewrite partition_args_filter.
  destruct (forallb (fun p => is_some (is_directory w p)) ps) eqn:E; split.
  - discriminate.
  - intros [p [Hp Hs]]. rewrite forallb_forall in E. specialize (E p Hp).
    unfold is_directory in E. rewrite Hs in E. discriminate.
  - intros _. destruct (forallb_false_ex _ _ E) as [p [Hp Hf]]. exists p. split; [exact Hp|].
    unfold is_directory in Hf. destruct (stat w p); [discriminate|reflexivity].
  - reflexivity.
Qed.

(** ** The default order of [do_ls] *)

Lemma cwh_dot_l : forall a b, is_dot a = true -> compare_with_hidden a b = -1.
Proof.
  intros a b H. unfold is_dot in H. unfold compare_with_hidden.
  destruct (String.eqb a "."); [reflexivity|].
  destruct (String.eqb a ".."); [reflexivity|discriminate].
Qed.

Lemma cwh_dot_r : forall a b, is_dot a = false -> is_dot b = true ->
  compare_with_hidden a b = 1.
Proof.
  intros a b Ha Hb. unfold is_dot in Ha, Hb. unfold compare_with_hidden.
  apply orb_false_iff in Ha as [Ha1 Ha2]. rewrite Ha1, Ha2.
  destruct (String.eqb b "."); [reflexivity|].
  destruct (String.eqb b ".."); [reflexivity|discriminate].
Qed.

Lemma cwh_plain : forall a b, is_dot a = false -> is_dot b = false ->
  compare_with_hidden a b = strcmp a b.
Proof.
  intros a b Ha Hb. unfold is_dot in Ha, Hb. unfold compare_with_hidden.
  apply orb_false_iff in Ha as [Ha1 Ha2], Hb as [Hb1 Hb2].
  rewrite Ha1, Ha2, Hb1, Hb2. reflexivity.
Qed.

Lemma cwh_le : forall a b, compare_with_hidden a b <= 0 -> dots_first a b.
Proof.
  intros a b H. unfold dots_first.
  destruct (is_dot a) eqn:Ha; [split; [auto|discriminate]|].
  destruct (is_dot b) eqn:Hb.
  - rewrite cwh_dot_r in H by assumption. lia.
  - rewrite cwh_plain in H by assumption. split; [discriminate|auto].
Qed.

Lemma cwh_gt : forall a b, 0 < compare_with_hidden a b -> dots_first b a.
Proof.
  intros a b H. unfold dots_first.
  destruct (is_dot a) eqn:Ha; [rewrite cwh_dot_l in H by assumption; lia|].
  split; [discriminate|]. intros Hb _.
  rewrite cwh_plain in H by assumption. rewrite strcmp_antisym. lia.
Qed.

Lemma dots_first_nondot_all : forall l a, Sorted dots_first (a :: l) ->
  is_dot a = false -> Forall (fun n => is_dot n = false) (a :: l).
Proof.
  induction l as [|b l IH]; intros a Hs Ha; [repeat constructor; exact Ha|].
  constructor; [exact Ha|].
  apply Sorted_inv in Hs as [Hs Hd]. inversion Hd as [|? ? [Hab _]]; subst.
  apply IH; [exact Hs|].
  destruct (is_dot b) eqn:Hb; [|reflexivity]. rewrite Hab in Ha; [discriminate|reflexivity].
Qed.

Lemma filter_dot_nil : forall l, Forall (fun n => is_dot n = false) l -> filter is_dot l = [].
Proof.
  induction l as [|a l IH]; intro H; [reflexivity|].
  simpl. rewrite (Forall_inv H). apply IH, (Forall_inv_tail H).
Qed.

Lemma filter_cons_eq : forall (f : string -> bool) x l,
  filter f (x :: l) = if f x then x :: filter f l else filter f l.
Proof. reflexivity. Qed.

Lemma merge_dots : forall l1 l2, Sorted dots_first l1 ->
  filter is_dot (merge compare_with_hidden l1 l2) = filter is_dot l1 ++ filter is_dot l2.
Proof.
  induction l1 as [|a l1 IH1]; intros l2 H1; [reflexivity|].
  induction l2 as [|b l2 IH2]; [rewrite merge_nil_r, app_nil_r; reflexivity|].
  rewrite merge_cons_cons.
  destruct (is_dot a) eqn:Ha.
  - rewrite cwh_dot_l by exact Ha. change (-1 <=? 0) with true. cbv iota.
    rewrite !filter_cons_eq, Ha, IH1 by exact (proj1 (Sorted_inv H1)). reflexivity.
  - destruct (is_dot b) eqn:Hb.
    + rewrite cwh_dot_r by assumption. change (1 <=? 0) with false. cbv iota.
      rewrite filter_cons_eq, Hb, IH2.
      rewrite (filter_dot_nil (a :: l1)) by (apply dots_first_nondot_all; assumption).
      rewrite filter_cons_eq, Hb. reflexivity.
    + rewrite cwh_plain by assumption.
      destruct (strcmp a b <=? 0); cbv iota.
      * rewrite !filter_cons_eq, Ha, Hb, IH1 by exact (proj1 (Sorted_inv H1)).
        rewrite filter_cons_eq, Hb. reflexivity.
      * rewrite filter_cons_eq, Hb, IH2, !filter_cons_eq, Ha, Hb. reflexivity.
Qed.

Lemma msort_dots : forall fuel l, (List.length l <= fuel)%nat ->
  filter is_dot (msort_fuel compare_with_hidden fuel l) = filter is_dot l.
Proof.
  induction fuel as [|f IH]; intros l Hl; [reflexivity|].
  rewrite msort_fuel_S. destruct (Nat.leb_spec (List.length l) 1) as [H1|H1]; [reflexivity|].
  assert (Hd : (1 <= Nat.div (List.length l) 2 < List.length l)%nat).
  { split; [apply Nat.div_le_lower_bound|apply Nat.div_lt]; lia. }
  rewrite merge_dots.
  - rewrite !IH.
    + rewrite <- filter_app, firstn_skipn. reflexivity.
    + rewrite length_skipn. lia.
    + rewrite length_firstn, Nat.min_l; lia.
  - apply msort_sorted_R; [exact cwh_le|exact cwh_gt|].
    rewrite length_firstn, Nat.min_l; lia.
Qed.

Lemma sorted_dots_split : forall l, Sorted dots_first l ->
  l = filter is_dot l ++ filter (fun n => negb (is_dot n)) l.
Proof.
  induction l as [|a l IH]; intro H; [reflexivity|].
  simpl. destruct (is_dot a) eqn:Ha; simpl.
  - rewrite <- IH by exact (proj1 (Sorted_inv H)). reflexivity.
  - pose proof (dots_first_nondot_all l a H Ha) as Hall.
    rewrite (filter_dot_nil l (Forall_inv_tail Hall)). simpl. f_equal.
    clear IH H. induction l as [|b l IH]; [reflexivity|].
    pose proof (Forall_inv_tail Hall) as Hb. simpl. rewrite (Forall_inv Hb). simpl.
    f_equal. apply IH. constructor; [exact Ha|exact (Forall_inv_tail Hb)].
Qed.

Lemma Sorted_app_r : forall (R : string -> string -> Prop) l1 l2,
  Sorted R (l1 ++ l2) -> Sorted R l2.
Proof.
  intros R l1 l2. induction l1 as [|a l1 IH]; intro H; [exact H|].
  apply IH. exact (proj1 (Sorted_inv H)).
Qed.

Lemma sorted_nondot_strcmp : forall s, Sorted dots_first s ->
  Forall (fun n => is_dot n = false) s -> Sorted (fun a b => strcmp a b <= 0) s.
Proof.
  intros s H. induction H as [|a l Hl IH Hd]; intro Hf; constructor.
  - apply IH, (Forall_inv_tail Hf).
  - destruct Hd as [|b l' [_ Hab]]; constructor.
    apply Hab; [exact (Forall_inv Hf)|exact (Forall_inv (Forall_inv_tail Hf))].
Qed.

(** Without [-t], [-u], [-c] or [-f], [do_ls] sorts with
    [compare_with_hidden]: the entries "." and ".." come first, in the
    order [readdir] returned them (so ".." can come before "."), and the
    other names follow in [strcmp] order. *)
Theorem default_sort_dots_first : forall w fl es,
  is_sort_by_time_enabled fl = false -> is_sort_by_access_time_enabled fl = false ->
  is_ctime_option_enabled fl = false -> is_no_sort_enabled fl = false ->
  exists s, do_ls_sort w fl es = filter is_dot es ++ s /\
    Permutation (filter (fun n => negb (is_dot n)) es) s /\
    Sorted (fun a b => strcmp a b <= 0) s.
Proof.
  intros w fl es Ht Hu Hc Hf. unfold do_ls_sort. rewrite Ht, Hu, Hc, Hf. simpl.
  pose proof (qsort_sorted_R compare_with_hidden dots_first cwh_le cwh_gt es) as Hs.
  pose proof (sorted_dots_split _ Hs) as Hsplit.
  exists (filter (fun n => negb (is_dot n)) (qsort compare_with_hidden es)).
  split; [|split].
  - rewrite Hsplit at 1. unfold qsort at 1. rewrite msort_dots by lia. reflexivity.
  - apply Permutation_filter_bool, qsort_perm.
  - apply sorted_nondot_strcmp.
    + rewrite Hsplit in Hs. exact (Sorted_app_r _ _ _ Hs).
    + rewrite Forall_forall. intros x Hx. apply filter_In in Hx as [_ Hx].
      apply negb_true_iff, Hx.
Qed.

Lemma default_sort_dots_first_witness :
  is_sort_by_time_enabled (flags_of_opts ["a"%char]) = false /\
  is_sort_by_access_time_enabled (flags_of_opts ["a"%char]) = false /\
  is_ctime_option_enabled (flags_of_opts ["a"%char]) = false /\
  is_no_sort_enabled (flags_of_opts ["a"%char]) = false /\
  exists s, do_ls_sort w_dots (flags_of_opts ["a"%char]) [".."; "b"; "."; "a"]%string =
    filter is_dot [".."; "b"; "."; "a"]%string ++ s /\
    Permutation (filter (fun n => negb (is_dot n)) [".."; "b"; "."; "a"]%string) s /\
    Sorted (fun a b => strcmp a b <= 0) s.
Proof.
  split; [reflexivity|split; [reflexivity|split; [reflexivity|split; [reflexivity|]]]].
  apply default_sort_dots_first; reflexivity.
Defined.

(** ** [do_ls]: the entry array and what is printed *)

Lemma read_entries_none : forall fl ents room,
  read_entries fl ents room = None <-> (room < List.length (kept fl ents))%nat.
Proof.
  intro fl. induction ents as [|d rest IH]; intro room; simpl.
  - split; [discriminate|lia].
  - unfold kept in *. simpl. destruct (skip_entry fl d); simpl; [apply IH|].
    destruct room as [|room'].
    + split; [lia|reflexivity].
    + specialize (IH room'). destruct (read_entries fl rest room') as [l|]; simpl.
      * split; [discriminate|]. intro H. assert (Hc : Some l = None) by (apply IH; lia).
        discriminate.
      * split; [intros _|reflexivity]. apply -> Nat.succ_lt_mono. apply IH. reflexivity.
Qed.

Lemma read_entries_some : forall fl ents room,
  (List.length (kept fl ents) <= room)%nat -> read_entries fl ents room = Some (kept fl ents).
Proof.
  intros fl ents room H. destruct (read_entries fl ents room) as [es|] eqn:E.
  - rewrite (read_entries_kept _ _ _ _ E). reflexivity.
  - apply read_entries_none in E. lia.
Qed.

(** [do_ls] on a directory stores past the end of its 100-slot
    [file_entries] array exactly when more than [MAX_ENTRIES] names
    survive the hidden-file test; the trace then stops there, with the
    directory still open. *)
Theorem do_ls_overflow : forall w fl D ents, opendir w D = Some ents ->
  (do_ls w fl D = [DirOpen D; Overflow] <-> (MAX_ENTRIES < List.length (kept fl ents))%nat).
Proof.
  intros w fl D ents Ho. unfold do_ls. rewrite Ho.
  destruct (read_entries fl ents MAX_ENTRIES) eqn:E.
  - split; [intro H; injection H as H; discriminate|].
    intro Hl. apply read_entries_none in Hl. congruence.
  - split; [intros _; apply read_entries_none, E|reflexivity].
Qed.

Lemma do_ls_overflow_witness :
  opendir w_many "/big" = Some many_names /\
  (MAX_ENTRIES < List.length (kept flags0 many_names))%nat /\
  do_ls w_many flags0 "/big" = [DirOpen "/big"; Overflow]%string.
Proof.
  assert (H1 : opendir w_many "/big" = Some many_names) by reflexivity.
  assert (H2 : (MAX_ENTRIES < List.length (kept flags0 many_names))%nat)
    by (apply Nat.ltb_lt; vm_compute; reflexivity).
  split; [exact H1|split; [exact H2|]].
  exact (proj2 (do_ls_overflow w_many flags0 "/big" _ H1) H2).
Defined.

Lemma printed_names_app : forall a b, printed_names (a ++ b) = printed_names a ++ printed_names b.
Proof. induction a as [|[] a IH]; intro b; simpl; rewrite ?IH; reflexivity. Qed.

Lemma printed_names_entry : forall w fl p, lstat w (basename_path p) <> None ->
  printed_names (print_entry w fl p) = [p].
Proof.
  intros w fl p H. unfold print_entry, print_inode, print_column_with_color, print_with_color.
  destruct (lstat w (basename_path p)); [|contradiction].
  destruct (is_inode_enabled fl), (is_column_output_enabled fl);
    try destruct (lstat w p); reflexivity.
Qed.

Lemma printed_names_entries : forall w fl D l,
  Forall (fun n => lstat w (basename_path (join_path D n)) <> None) l ->
  printed_names (List.concat (map (fun n => print_entry w fl (join_path D n)) l))
  = map (join_path D) l.
Proof.
  intros w fl D l H. induction H as [|n l Hn Hl IH]; [reflexivity|].
  simpl. rewrite printed_names_app, printed_names_entry, IH by exact Hn. reflexivity.
Qed.

Lemma do_ls_sort_perm : forall w fl es, Permutation es (do_ls_sort w fl es).
Proof.
  intros w fl es. unfold do_ls_sort.
  destruct ((is_sort_by_time_enabled fl || is_sort_by_access_time_enabled fl)
            && negb (is_no_sort_enabled fl)); [apply qsort_perm|].
  destruct (is_ctime_option_enabled fl && negb (is_no_sort_enabled fl)); [apply qsort_perm|].
  destruct (negb (is_no_sort_enabled fl)); [apply qsort_perm|reflexivity].
Qed.

Lemma printed_names_trailer : forall fl,
  printed_names (if is_column_output_enabled fl then [] else [Newline]) = [].
Proof. intro fl. destruct (is_column_output_enabled fl); reflexivity. Qed.

(** When at most [MAX_ENTRIES] names survive the hidden-file test and
    [print_with_color] can [lstat] the [full_path] of each, [do_ls] closes
    the directory before printing anything and prints every kept entry
    exactly once, as its [full_path] ([dir/name], "/name" for the root,
    cut by [snprintf] to 1023 bytes), whatever sort order the flags
    select. *)
Theorem do_ls_lists_each_once : forall w fl D ents, opendir w D = Some ents ->
  (List.length (kept fl ents) <= MAX_ENTRIES)%nat ->
  Forall (fun n => lstat w (basename_path (join_path D n)) <> None) (kept fl ents) ->
  exists rest, do_ls w fl D = DirOpen D :: DirClose D :: rest /\
    Permutation (printed_names rest) (map (join_path D) (kept fl ents)).
Proof.
  intros w fl D ents Ho Hl Hs. unfold do_ls. rewrite Ho, read_entries_some by exact Hl.
  eexists. split; [reflexivity|].
  rewrite printed_names_app, printed_names_trailer, app_nil_r.
  rewrite printed_names_entries.
  - apply Permutation_map, Permutation_sym, do_ls_sort_perm.
  - apply (Forall_perm _ (kept fl ents)); [apply do_ls_sort_perm|exact Hs].
Qed.

Lemma do_ls_lists_each_once_witness :
  opendir w_fruit "/d"%string = Some ["."; ".."; "Banana"; "apple"; "Cherry"]%string /\
  (List.length (kept flags0 ["."; ".."; "Banana"; "apple"; "Cherry"]%string) <= MAX_ENTRIES)%nat /\
  Forall (fun n => lstat w_fruit (basename_path (join_path "/d" n)) <> None)
    (kept flags0 ["."; ".."; "Banana"; "apple"; "Cherry"]%string) /\
  exists rest, do_ls w_fruit flags0 "/d" = DirOpen "/d" :: DirClose "/d" :: rest /\
    Permutation (printed_names rest)
      (map (join_path "/d") (kept flags0 ["."; ".."; "Banana"; "apple"; "Cherry"]%string)).
Proof.
  assert (H1 : opendir w_fruit "/d"%string = Some ["."; ".."; "Banana"; "apple"; "Cherry"]%string)
    by reflexivity.
  assert (H2 : (List.length (kept flags0 ["."; ".."; "Banana"; "apple"; "Cherry"]%string)
                <= MAX_ENTRIES)%nat) by (vm_compute; lia).
  assert (H3 : Forall (fun n => lstat w_fruit (basename_path (join_path "/d" n)) <> None)
                 (kept flags0 ["."; ".."; "Banana"; "apple"; "Cherry"]%string))
    by (vm_compute; repeat constructor; discriminate).
  split; [exact H1|split; [exact H2|split; [exact H3|]]].
  exact (do_ls_lists_each_once w_fruit flags0 "/d" _ H1 H2 H3).
Defined.

(** With [-f], [do_ls] keeps every entry, hidden ones included, and
    prints them in the order [readdir] returned them, each as its
    [full_path] (cut by [snprintf] to 1023 bytes), when there are at most
    [MAX_ENTRIES] of them and [print_with_color] can [lstat] each path. *)
Theorem no_sort_readdir_order : forall w fl D ents,
  is_no_sort_enabled fl = true -> opendir w D = Some ents ->
  (List.length ents <= MAX_ENTRIES)%nat ->
  Forall (fun n => lstat w (basename_path (join_path D n)) <> None) ents ->
  printed_names (do_ls w fl D) = map (join_path D) ents.
Proof.
  intros w fl D ents Hf Ho Hl Hs.
  assert (Hk : forall l, kept fl l = l).
  { unfold kept, skip_entry. rewrite Hf.
    induction l as [|e l IH]; simpl; [reflexivity|].
    rewrite andb_false_r. simpl. f_equal. exact IH. }
  unfold do_ls. rewrite Ho, read_entries_some by (rewrite Hk; exact Hl). rewrite Hk.
  assert (Hsort : do_ls_sort w fl ents = ents).
  { unfold do_ls_sort. rewrite Hf, !andb_false_r. reflexivity. }
  simpl. rewrite Hsort, printed_names_app, printed_names_trailer, app_nil_r.
  apply printed_names_entries, Hs.
Qed.

Lemma no_sort_readdir_order_witness :
  is_no_sort_enabled (flags_of_opts ["f"%char]) = true /\
  opendir w_fruit "/d"%string = Some ["."; ".."; "Banana"; "apple"; "Cherry"]%string /\
  (List.length ["."; ".."; "Banana"; "apple"; "Cherry"]%string <= MAX_ENTRIES)%nat /\
  Forall (fun n => lstat w_fruit (basename_path (join_path "/d" n)) <> None)
    ["."; ".."; "Banana"; "apple"; "Cherry"]%string /\
  printed_names (do_ls w_fruit (flags_of_opts ["f"%char]) "/d") =
    map (join_path "/d") ["."; ".."; "Banana"; "apple"; "Cherry"]%string.
Proof.
  assert (H0 : is_no_sort_enabled (flags_of_opts ["f"%char]) = true) by reflexivity.
  assert (H1 : opendir w_fruit "/d"%string = Some ["."; ".."; "Banana"; "apple"; "Cherry"]%string)
    by reflexivity.
  assert (H2 : (List.length ["."; ".."; "Banana"; "apple"; "Cherry"]%string <= MAX_ENTRIES)%nat)
    by (vm_compute; lia).
  assert (H3 : Forall (fun n => lstat w_fruit (basename_path (join_path "/d" n)) <> None)
                 ["."; ".."; "Banana"; "apple"; "Cherry"]%string)
    by (repeat constructor; vm_compute; discriminate).
  split; [exact H0|split; [exact H1|split; [exact H2|split; [exact H3|]]]].
  exact (no_sort_readdir_order w_fruit _ "/d" _ H0 H1 H2 H3).
Defined.

(** ** [print_longformat] and [list_directories] *)

(** [print_longformat] ends its line with a newline exactly when [lstat],
    [getpwuid], [getgrgid] and [localtime] all succeed.  When a lookup or
    [localtime] fails, the type letter has already been printed and the
    line is left unterminated. *)
Theorem longformat_line_ends : forall w p,
  (exists pre, print_longformat w p = pre ++ [Newline]) <->
  (exists st o g, lstat w p = Some st /\ getpwuid w (st_uid st) = Some o /\
                  getgrgid w (st_gid st) = Some g /\ localtime_ok w (st_mtime st) = true).
Proof.
  intros w p. unfold print_longformat. split.
  - intros [pre H]. apply (f_equal (fun l => last l Overflow)) in H.
    rewrite last_last in H. destruct (lstat w p) as [st|]; [|discriminate].
    destruct (getpwuid w (st_uid st)) as [o|] eqn:Ho; [|discriminate].
    destruct (getgrgid w (st_gid st)) as [g|] eqn:Hg; [|discriminate].
    destruct (localtime_ok w (st_mtime st)) eqn:Ht; [|discriminate].
    exists st, o, g. auto.
  - intros [st [o [g [Hl [Ho [Hg Ht]]]]]]. rewrite Hl, Ho, Hg, Ht.
    eexists (TypeChar _ :: Row _ :: print_with_color w p). reflexivity.
Qed.

Lemma printed_names_longformat : forall w p,
  printed_names (print_longformat w p) =
  match lstat w p with
  | Some st => match getpwuid w (st_uid st), getgrgid w (st_gid st) with
               | Some _, Some _ =>
                 if localtime_ok w (st_mtime st) && is_some (lstat w (basename_path p))
                 then [p] else []
               | _, _ => [] end
  | None => [] end.
Proof.
  intros w p. unfold print_longformat.
  destruct (lstat w p) as [st|] eqn:Hl; [|reflexivity].
  destruct (getpwuid w (st_uid st)), (getgrgid w (st_gid st)); try reflexivity.
  destruct (localtime_ok w (st_mtime st)); [|reflexivity].
  simpl. unfold print_with_color. destruct (lstat w (basename_path p)); reflexivity.
Qed.

Lemma no_diropen_app : forall a b D, ~ In (DirOpen D) a -> ~ In (DirOpen D) b ->
  ~ In (DirOpen D) (a ++ b).
Proof. intros a b D Ha Hb H. apply in_app_or in H as [H|H]; contradiction. Qed.

Lemma no_diropen_longformat : forall w p D, ~ In (DirOpen D) (print_longformat w p).
Proof.
  intros w p D. unfold print_longformat, print_with_color.
  repeat match goal with
         | |- context [match ?x with _ => _ end] => destruct x
         | |- context [if ?b then _ else _] => destruct b
         end; simpl; intuition discriminate.
Qed.

(** With [-d], [list_directories] never opens a directory: it prints the
    operands themselves.  Without [-l], the names it prints are the
    operands in [strcmp] order, less those that [stat] cannot find and
    those that [lstat] cannot find once [basename] has cut their trailing
    slashes. *)
Theorem list_directories_names : forall w fl args,
  (forall D, ~ In (DirOpen D) (list_directories w fl args)) /\
  (is_long_format_enabled fl = false ->
   printed_names (list_directories w fl args) =
   filter (fun a => is_some (stat w a) && is_some (lstat w (basename_path a))) (qsort compare args)).
Proof.
  intros w fl args. unfold list_directories. split.
  - intro D. apply no_diropen_app; [|destruct (_ && _); simpl; intuition discriminate].
    induction (qsort compare args) as [|a l IH]; [simpl; tauto|].
    simpl. apply no_diropen_app; [|exact IH].
    destruct (stat w a); [|simpl; intuition discriminate].
    destruct (is_long_format_enabled fl).
    + apply no_diropen_longformat.
    + unfold print_column_with_color, print_with_color.
      destruct (is_column_output_enabled fl), (lstat w (basename_path a)); simpl; intuition discriminate.
  - intro Hl. rewrite Hl. rewrite printed_names_app.
    replace (printed_names (if negb false && negb (is_column_output_enabled fl)
                            then [Newline] else [])) with (@nil string)
      by (destruct (is_column_output_enabled fl); reflexivity).
    rewrite app_nil_r.
    induction (qsort compare args) as [|a l IH]; [reflexivity|].
    simpl. rewrite printed_names_app, IH.
    destruct (stat w a); [|reflexivity]. simpl.
    unfold print_column_with_color, print_with_color.
    destruct (is_column_output_enabled fl), (lstat w (basename_path a)); reflexivity.
Qed.

Lemma list_directories_names_witness :
  is_long_format_enabled (flags_of_opts ["d"%char]) = false /\
  printed_names (list_directories w_fruit (flags_of_opts ["d"%char])
                   ["/d/apple"; "/nowhere"; "/d/Banana"]%string) =
  filter (fun a => is_some (stat w_fruit a) && is_some (lstat w_fruit (basename_path a)))
    (qsort compare ["/d/apple"; "/nowhere"; "/d/Banana"]%string).
Proof.
  assert (H : is_long_format_enabled (flags_of_opts ["d"%char]) = false) by reflexivity.
  split; [exact H|].
  exact (proj2 (list_directories_names w_fruit _ ["/d/apple"; "/nowhere"; "/d/Banana"]%string) H).
Defined.

(** ** The options of [main] *)

Lemma apply_opt_spec : forall f o,
  apply_opt f o =
  mkFlags true
    (is_long_format_enabled f || Ascii.eqb o "l")
    (is_hidden_files_enabled f || Ascii.eqb o "a")
    (is_sort_by_time_enabled f || Ascii.eqb o "t")
    (is_sort_by_access_time_enabled f || Ascii.eqb o "t" || Ascii.eqb o "u")
    (is_directory_option_enabled f || Ascii.eqb o "d")
    (is_ctime_option_enabled f || Ascii.eqb o "d" || Ascii.eqb o "c")
    (is_no_sort_enabled f || Ascii.eqb o "f")
    (is_inode_enabled f || Ascii.eqb o "i")
    (is_column_output_enabled f || Ascii.eqb o "1").
Proof.
  intros [no l a t u d c nf i one] o.
  destruct o as [[] [] [] [] [] [] [] []]; simpl; rewrite ?orb_false_r, ?orb_true_r;
    reflexivity.
Qed.

Lemma fold_apply_opt : forall os f,
  fold_left apply_opt os f =
  mkFlags (is_no_option_enabled f || negb (Nat.eqb (List.length os) 0))
    (is_long_format_enabled f || has_opt os "l")
    (is_hidden_files_enabled f || has_opt os "a")
    (is_sort_by_time_enabled f || has_opt os "t")
    (is_sort_by_access_time_enabled f || has_opt os "t" || has_opt os "u")
    (is_directory_option_enabled f || has_opt os "d")
    (is_ctime_option_enabled f || has_opt os "d" || has_opt os "c")
    (is_no_sort_enabled f || has_opt os "f")
    (is_inode_enabled f || has_opt os "i")
    (is_column_output_enabled f || has_opt os "1").
Proof.
  unfold has_opt. induction os as [|o os IH]; intro f.
  - destruct f; simpl; rewrite ?orb_false_r; reflexivity.
  - simpl fold_left. rewrite IH, apply_opt_spec. simpl. f_equal; btauto.
Qed.

(** The [getopt] loop of [main] sets a flag exactly when its letter was
    given, whatever the order and repetition of the options; because of the
    fall-throughs, [-t] also sets the access-time flag of [-u], and [-d]
    also sets the ctime flag of [-c]. *)
Theorem flags_of_opts_spec : forall os,
  flags_of_opts os =
  mkFlags (negb (Nat.eqb (List.length os) 0)) (has_opt os "l") (has_opt os "a")
    (has_opt os "t") (has_opt os "t" || has_opt os "u") (has_opt os "d")
    (has_opt os "d" || has_opt os "c") (has_opt os "f") (has_opt os "i") (has_opt os "1").
Proof. intro os. unfold flags_of_opts. rewrite fold_apply_opt. reflexivity. Qed.

(** With [-d], [main] ignores [-l], [-a] and the sort options: with
    operands it hands them to [list_directories] (which lists no
    directory's contents), without operands it prints ".". *)
Theorem directory_option_dominates : forall w fl directory multiArgs,
  is_directory_option_enabled fl = true ->
  main_dispatch w fl directory multiArgs =
  match multiArgs with
  | [] => Some (if is_no_sort_enabled fl then [MText (String "." NL)]
                else main_ev (print_with_color w ".") ++ [MOut (Ev Newline)])
  | _ => Some (main_ev (list_directories w fl multiArgs))
  end.
Proof.
  intros w fl directory multiArgs Hd. unfold main_dispatch. rewrite Hd.
  simpl negb. rewrite !andb_false_r.
  destruct multiArgs; reflexivity.
Qed.

Lemma directory_option_dominates_witness :
  is_directory_option_enabled (flags_of_opts ["l"; "a"; "d"]%char) = true /\
  main_dispatch w_fruit (flags_of_opts ["l"; "a"; "d"]%char) "/home" ["/d"]%string =
  Some (main_ev (list_directories w_fruit (flags_of_opts ["l"; "a"; "d"]%char) ["/d"]%string)).
Proof.
  split; [reflexivity|].
  exact (directory_option_dominates w_fruit (flags_of_opts ["l"; "a"; "d"]%char) "/home" ["/d"]%string eq_refl).
Defined.

(** When [getopt] returns only letters outside "latudcfi1" (an unknown
    option comes back as '?'), no branch of [main]'s dispatch applies:
    nothing is listed, with or without operands. *)
Theorem unknown_options_list_nothing : forall w os directory multiArgs,
  Forall (fun o => existsb (Ascii.eqb o) (list_ascii_of_string "latudcfi1") = false) os ->
  main_dispatch w (flags_of_opts os) directory multiArgs = Some [].
Proof.
  intros w os directory multiArgs H.
  assert (Hn : forall c, In c (list_ascii_of_string "latudcfi1") -> has_opt os c = false).
  { intros c Hc. unfold has_opt. apply Bool.not_true_iff_false. intro E.
    apply existsb_exists in E as [o [Ho Eo]]. apply Ascii.eqb_eq in Eo. subst o.
    rewrite Forall_forall in H. specialize (H c Ho).
    apply Bool.not_true_iff_false in H. apply H, existsb_exists. exists c.
    split; [exact Hc|apply Ascii.eqb_refl]. }
  unfold main_dispatch. rewrite flags_of_opts_spec. simpl.
  rewrite !Hn by (simpl; tauto). simpl. rewrite !andb_false_r. reflexivity.
Qed.

Lemma unknown_options_list_nothing_witness :
  Forall (fun o => existsb (Ascii.eqb o) (list_ascii_of_string "latudcfi1") = false)
    ["?"%char] /\
  main_dispatch w_fruit (flags_of_opts ["?"%char]) "/home" ["/d"]%string = Some [].
Proof.
  assert (H : Forall (fun o => existsb (Ascii.eqb o) (list_ascii_of_string "latudcfi1") = false)
                ["?"%char]) by (repeat constructor).
  split; [exact H|]. exact (unknown_options_list_nothing w_fruit ["?"%char] "/home" ["/d"]%string H).
Defined.

(** ** The operand loop of [main] *)

Lemma skipn_nth_error : forall (argv : list string) i a, nth_error argv i = Some a ->
  skipn i argv = a :: skipn (S i) argv.
Proof.
  induction argv as [|x argv IH]; intros [|i] a H; simpl in H; try discriminate.
  - injection H as ->. reflexivity.
  - simpl. apply IH, H.
Qed.

Lemma collect_args_ok : forall fuel argv i k acc,
  (List.length argv <= 255)%nat -> (List.length argv - i < fuel)%nat -> (k <= MAX_ARGS)%nat ->
  collect_args fuel argv i k acc = Some (acc ++ firstn (MAX_ARGS - k) (skipn i argv)).
Proof.
  induction fuel as [|f IH]; intros argv i k acc Hl Hf Hk; [lia|].
  cbn [collect_args]. destruct (nth_error argv i) as [a|] eqn:E.
  - assert (Hi : (i < List.length argv)%nat) by (apply nth_error_Some; congruence).
    rewrite Nat.mod_small by lia. rewrite (skipn_nth_error _ _ _ E).
    destruct (Nat.ltb_spec k MAX_ARGS) as [Hlt|Hge].
    + rewrite IH by lia. rewrite <- app_assoc.
      replace (MAX_ARGS - k)%nat with (S (MAX_ARGS - (k + 1))) by lia.
      replace (i + 1)%nat with (S i) by lia. reflexivity.
    + rewrite IH by lia. replace (MAX_ARGS - k)%nat with 0%nat by lia. reflexivity.
  - apply nth_error_None in E. rewrite skipn_all2 by exact E.
    rewrite firstn_nil, app_nil_r. reflexivity.
Qed.

(** When [argc <= 255], the loop that gathers the operands (no option
    given) stops after at most [argc] iterations and keeps the first
    [MAX_ARGS] operands [argv[1..]], dropping the rest silently. *)
Theorem collect_args_result : forall argv fuel,
  (List.length argv <= 255)%nat -> (List.length argv < fuel)%nat ->
  collect_args fuel argv 1 0 [] = Some (firstn MAX_ARGS (skipn 1 argv)).
Proof. intros argv fuel Hl Hf. rewrite collect_args_ok by lia. reflexivity. Qed.

Lemma collect_args_result_witness :
  (List.length ["myls"; "a"; "b"]%string <= 255)%nat /\
  (List.length ["myls"; "a"; "b"]%string < 4)%nat /\
  collect_args 4 ["myls"; "a"; "b"]%string 1 0 [] =
    Some (firstn MAX_ARGS (skipn 1 ["myls"; "a"; "b"]%string)).
Proof.
  assert (H1 : (List.length ["myls"; "a"; "b"]%string <= 255)%nat) by (simpl; lia).
  assert (H2 : (List.length ["myls"; "a"; "b"]%string < 4)%nat) by (simpl; lia).
  split; [exact H1|split; [exact H2|]]. exact (collect_args_result _ 4 H1 H2).
Defined.

Lemma collect_args_wrap : forall fuel argv i k acc,
  (256 <= List.length argv)%nat -> (i < 256)%nat -> collect_args fuel argv i k acc = None.
Proof.
  induction fuel as [|f IH]; intros argv i k acc Hl Hi; [reflexivity|].
  cbn [collect_args]. destruct (nth_error argv i) eqn:E.
  - destruct (k <? MAX_ARGS)%nat; apply IH; try exact Hl; apply Nat.mod_upper_bound; lia.
  - apply nth_error_None in E. lia.
Qed.

(** With 256 or more command-line words, the [uint8_t] index of that loop
    wraps from 255 to 0 before it reaches [argv[argc]]: the loop never
    ends, however many iterations are allowed. *)
Theorem collect_args_never_ends : forall argv fuel,
  (256 <= List.length argv)%nat -> collect_args fuel argv 1 0 [] = None.
Proof. intros argv fuel H. apply collect_args_wrap; lia. Qed.

Lemma collect_args_never_ends_witness :
  (256 <= List.length (repeat "x"%string 256))%nat /\
  collect_args 1000 (repeat "x"%string 256) 1 0 [] = None.
Proof.
  assert (H : (256 <= List.length (repeat "x"%string 256))%nat)
    by (rewrite repeat_length; lia).
  split; [exact H|]. exact (collect_args_never_ends _ 1000 H).
Defined.

(** ** [basename] and the text of a name *)

Lemma list_ascii_app : forall a b : string,
  list_ascii_of_string (a ++ b) = list_ascii_of_string a ++ list_ascii_of_string b.
Proof. induction a as [|c a IH]; intro b; simpl; [reflexivity|]. rewrite IH. reflexivity. Qed.

Lemma take_while_slash : forall l r, (forall c, In c l -> is_slash c = false) ->
  take_while (fun c => negb (is_slash c)) (l ++ "/"%char :: r) = l.
Proof.
  induction l as [|c l IH]; intros r H; [reflexivity|].
  simpl. rewrite (H c (or_introl eq_refl)). simpl. f_equal.
  apply IH. intros x Hx. apply H. right. exact Hx.
Qed.

Lemma basename_cons : forall p l, list_ascii_of_string p = l -> l <> [] ->
  basename p = match drop_while is_slash (rev l) with
               | [] => "/"%string
               | r => string_of_list_ascii (rev (take_while (fun c => negb (is_slash c)) r))
               end.
Proof. intros p l Hp Hl. unfold basename. rewrite Hp. destruct l; [contradiction|reflexivity]. Qed.

Lemma str_length_app : forall a b : string,
  String.length (a ++ b) = (String.length a + String.length b)%nat.
Proof. induction a as [|c a IH]; intro b; simpl; [reflexivity|]. rewrite IH. reflexivity. Qed.

Lemma substring_all : forall s k, (String.length s <= k)%nat -> substring 0 k s = s.
Proof.
  induction s as [|c s IH]; intros [|k] H; simpl in *; try reflexivity; try lia.
  f_equal. apply IH. lia.
Qed.

(** [snprintf] does not cut [full_path] when the directory path and the
    name together stay under 1023 bytes. *)
Lemma join_path_short : forall D n, (String.length D + String.length n < 1023)%nat ->
  join_path D n = if String.eqb D "/" then (D ++ n)%string else (D ++ "/" ++ n)%string.
Proof.
  intros D n H. unfold join_path, snprintf_full_path.
  destruct (String.eqb D "/"); apply substring_all; rewrite ?str_length_app; simpl; lia.
Qed.

(** The name [do_ls] prints for an entry is the entry itself: [basename]
    of the [full_path] it builds gives back [d_name], the root directory
    included, whenever the name is nonempty and has no slash (as every
    [d_name] is) and the directory path and the name together stay under
    1023 bytes, so that [snprintf] does not cut [full_path]. *)
Theorem basename_join_path : forall D n, n <> EmptyString ->
  (forall c, In c (list_ascii_of_string n) -> is_slash c = false) ->
  (String.length D + String.length n < 1023)%nat ->
  basename (join_path D n) = n.
Proof.
  intros D n Hn Hs Hlen. rewrite join_path_short by exact Hlen.
  assert (Hl : exists X, list_ascii_of_string
                           (if String.eqb D "/" then (D ++ n)%string else (D ++ "/" ++ n)%string) =
                         X ++ "/"%char :: list_ascii_of_string n).
  { destruct (String.eqb_spec D "/") as [->|_].
    - exists []. reflexivity.
    - exists (list_ascii_of_string D). rewrite !list_ascii_app. reflexivity. }
  destruct Hl as [X Hl].
  rewrite (basename_cons _ _ Hl) by (destruct X; discriminate).
  assert (Hr : rev (X ++ "/"%char :: list_ascii_of_string n) =
               rev (list_ascii_of_string n) ++ "/"%char :: rev X)
    by (rewrite rev_app_distr; simpl; rewrite <- app_assoc; reflexivity).
  rewrite Hr.
  destruct (rev (list_ascii_of_string n)) as [|d RL] eqn:ER.
  - exfalso. apply (f_equal (@rev ascii)) in ER. rewrite rev_involutive in ER.
    destruct n; [contradiction|discriminate].
  - assert (Hall : forall c, In c (d :: RL) -> is_slash c = false).
    { intros c Hc. apply Hs. rewrite <- ER, <- in_rev in Hc. exact Hc. }
    cbn [app drop_while]. rewrite (Hall d (or_introl eq_refl)). cbv iota.
    change (d :: RL ++ "/"%char :: rev X) with ((d :: RL) ++ "/"%char :: rev X).
    rewrite take_while_slash by exact Hall.
    rewrite <- ER, rev_involutive. apply string_of_list_ascii_of_string.
Qed.

Lemma basename_join_path_witness :
  "etc"%string <> EmptyString /\
  (forall c, In c (list_ascii_of_string "etc") -> is_slash c = false) /\
  (String.length "/" + String.length "etc" < 1023)%nat /\
  basename (join_path "/" "etc") = "etc"%string.
Proof.
  assert (H1 : "etc"%string <> EmptyString) by discriminate.
  assert (H2 : forall c, In c (list_ascii_of_string "etc") -> is_slash c = false).
  { intros c Hc. simpl in Hc. repeat (destruct Hc as [<-|Hc]; [reflexivity|]). contradiction. }
  assert (H3 : (String.length "/" + String.length "etc" < 1023)%nat)
    by (apply Nat.ltb_lt; reflexivity).
  split; [exact H1|split; [exact H2|split; [exact H3|]]].
  exact (basename_join_path "/" "etc" H1 H2 H3).
Defined.

Lemma str_app_assoc : forall a b c : string, (a ++ b ++ c = (a ++ b) ++ c)%string.
Proof. induction a as [|x a IH]; intros b c; simpl; [reflexivity|]. rewrite IH. reflexivity. Qed.

Ltac text_leaf :=
  rewrite ?str_app_assoc; eexists (Some _); split; reflexivity.

(** [print_column_with_color] prints exactly what [print_with_color]
    prints, colours and link targets included, except that the name ends
    with a newline instead of three spaces; both print nothing when
    [lstat] fails. *)
Theorem column_text_matches : forall w lk fl p,
  exists body, print_with_color_text w lk fl p = option_map (fun b => (b ++ "   ")%string) body
    /\ print_column_with_color_text w lk fl p = option_map (fun b => (b ++ NL)%string) body.
Proof.
  intros w lk fl p. unfold print_with_color_text, print_column_with_color_text. cbv zeta.
  destruct (lstat w (basename_path p)) as [fi|]; cbv iota; [|exists None; split; reflexivity].
  destruct (negb (is_no_sort_enabled fl)).
  - destruct (S_ISDIR (st_mode fi)); [text_leaf|].
    destruct (S_ISLNK (st_mode fi)).
    + destruct (readlink w lk (basename_path p)) as [tp|]; [|text_leaf].
      destruct (is_long_format_enabled fl); [|text_leaf].
      destruct (lstat w tp) as [ti|]; [|text_leaf].
      destruct (S_ISDIR (st_mode ti)); [text_leaf|].
      destruct (has (st_mode ti) S_IXUSR); text_leaf.
    + destruct (has (st_mode fi) S_IXUSR); text_leaf.
  - destruct (readlink w lk (basename_path p)) as [tp|]; [destruct (is_long_format_enabled fl)|]; text_leaf.
Qed.

(** Without [-l], [print_with_color] never prints a link target: its text
    is the base name of the path, plain or wrapped in one colour, followed
    by three spaces. *)
Theorem no_link_target_without_long : forall w lk fl p t,
  is_long_format_enabled fl = false -> print_with_color_text w lk fl p = Some t ->
  t = (basename p ++ "   ")%string \/
  exists code, t = (colored code (basename p) ++ "   ")%string.
Proof.
  intros w lk fl p t Hl Ht. unfold print_with_color_text in Ht. cbv zeta in Ht.
  rewrite Hl in Ht.
  destruct (lstat w (basename_path p)) as [fi|]; [|discriminate]. injection Ht as <-.
  destruct (negb (is_no_sort_enabled fl)).
  - destruct (S_ISDIR (st_mode fi)); [right; exists "34"%string; reflexivity|].
    destruct (S_ISLNK (st_mode fi)).
    + destruct (readlink w lk (basename_path p)); right; exists "36"%string; reflexivity.
    + destruct (has (st_mode fi) S_IXUSR);
        [right; exists "32"%string; reflexivity|left; reflexivity].
  - destruct (readlink w lk (basename_path p)); left; reflexivity.
Qed.

Lemma no_link_target_without_long_witness :
  is_long_format_enabled flags0 = false /\
  print_with_color_text w_link [("/d/lnk"%string, "/d/big"%string)] flags0 "/d/lnk" =
    Some (colored "36" "lnk" ++ "   ")%string /\
  ((colored "36" "lnk" ++ "   ")%string = (basename "/d/lnk" ++ "   ")%string \/
   exists code, (colored "36" "lnk" ++ "   ")%string =
                (colored code (basename "/d/lnk") ++ "   ")%string).
Proof.
  assert (H1 : is_long_format_enabled flags0 = false) by reflexivity.
  assert (H2 : print_with_color_text w_link [("/d/lnk"%string, "/d/big"%string)] flags0 "/d/lnk" =
                 Some (colored "36" "lnk" ++ "   ")%string) by (vm_compute; reflexivity).
  split; [exact H1|split; [exact H2|]].
  exact (no_link_target_without_long w_link _ flags0 "/d/lnk" _ H1 H2).
Defined.

(** ** The time orders of [do_ls] *)

Lemma atime_le : forall w a b, compare_by_access_time w a b <= 0 -> atime_order w a b.
Proof.
  intros w a b H. unfold compare_by_access_time in H. unfold atime_order.
  destruct (stat w a) as [sa|] eqn:Ea; [|lia].
  split; [discriminate|]. intros sa' sb Ha Hb. injection Ha as <-. rewrite Hb in H.
  rewrite Z.gtb_ltb in H.
  destruct (Z.ltb_spec (st_atime sa) (st_atime sb)); [lia|].
  destruct (Z.ltb_spec (st_atime sb) (st_atime sa)); [left; lia|right; lia].
Qed.

Lemma atime_gt : forall w a b, 0 < compare_by_access_time w a b -> atime_order w b a.
Proof.
  intros w a b H. unfold compare_by_access_time in H. unfold atime_order.
  destruct (stat w a) as [sa|] eqn:Ea; [|split; [auto|discriminate]].
  destruct (stat w b) as [sb|] eqn:Eb; [|lia].
  split; [discriminate|]. intros sb' sa' Hb Ha. injection Ha as <-. injection Hb as <-.
  rewrite Z.gtb_ltb in H.
  destruct (Z.ltb_spec (st_atime sa) (st_atime sb)); [left; lia|].
  destruct (Z.ltb_spec (st_atime sb) (st_atime sa)); [lia|].
  right. split; [lia|]. rewrite strcmp_antisym. lia.
Qed.

(** With [-t] or [-u] (and no [-f]), [do_ls] lists the entries newest
    access time first, ties in [strcmp] order, the names [stat] cannot
    find last; the times are those [stat] reports for the bare entry
    names. *)
Theorem access_time_sort : forall w fl es,
  (is_sort_by_time_enabled fl || is_sort_by_access_time_enabled fl) = true ->
  is_no_sort_enabled fl = false ->
  Sorted (atime_order w) (do_ls_sort w fl es) /\ Permutation es (do_ls_sort w fl es).
Proof.
  intros w fl es Ht Hf. split; [|apply do_ls_sort_perm].
  unfold do_ls_sort. rewrite Ht, Hf. simpl.
  apply qsort_sorted_R; [apply atime_le|apply atime_gt].
Qed.

Lemma access_time_sort_witness :
  (is_sort_by_time_enabled (flags_of_opts ["u"%char])
   || is_sort_by_access_time_enabled (flags_of_opts ["u"%char])) = true /\
  is_no_sort_enabled (flags_of_opts ["u"%char]) = false /\
  Sorted (atime_order w_times) (do_ls_sort w_times (flags_of_opts ["u"%char]) ["x"; "y"]%string).
Proof.
  assert (H1 : (is_sort_by_time_enabled (flags_of_opts ["u"%char])
                || is_sort_by_access_time_enabled (flags_of_opts ["u"%char])) = true)
    by reflexivity.
  assert (H2 : is_no_sort_enabled (flags_of_opts ["u"%char]) = false) by reflexivity.
  split; [exact H1|split; [exact H2|]].
  exact (proj1 (access_time_sort w_times _ ["x"; "y"]%string H1 H2)).
Defined.

Lemma ctime_le : forall w a b, compare_by_ctime w a b <= 0 -> ctime_order w a b.
Proof.
  intros w a b H. unfold compare_by_ctime in H. unfold ctime_order.
  destruct (stat w a) as [sa|] eqn:Ea; [|lia].
  split; [discriminate|]. intros sa' sb Ha Hb. injection Ha as <-. rewrite Hb in H.
  rewrite Z.gtb_ltb in H.
  destruct (Z.ltb_spec (st_ctime sb) (st_ctime sa)); [lia|].
  destruct (Z.ltb_spec (st_ctime sa) (st_ctime sb)); lia.
Qed.

Lemma ctime_gt : forall w a b, 0 < compare_by_ctime w a b -> ctime_order w b a.
Proof.
  intros w a b H. unfold compare_by_ctime in H. unfold ctime_order.
  destruct (stat w a) as [sa|] eqn:Ea; [|split; [auto|discriminate]].
  destruct (stat w b) as [sb|] eqn:Eb; [|lia].
  split; [discriminate|]. intros sb' sa' Hb Ha. injection Ha as <-. injection Hb as <-.
  rewrite Z.gtb_ltb in H.
  destruct (Z.ltb_spec (st_ctime sb) (st_ctime sa)); [lia|].
  destruct (Z.ltb_spec (st_ctime sa) (st_ctime sb)); lia.
Qed.

(** With [-c] (or [-d]) and neither [-t], [-u] nor [-f], [do_ls] lists
    the entries newest status change first, the names [stat] cannot find
    last. *)
Theorem ctime_sort : forall w fl es,
  is_sort_by_time_enabled fl = false -> is_sort_by_access_time_enabled fl = false ->
  is_ctime_option_enabled fl = true -> is_no_sort_enabled fl = false ->
  Sorted (ctime_order w) (do_ls_sort w fl es) /\ Permutation es (do_ls_sort w fl es).
Proof.
  intros w fl es Ht Hu Hc Hf. split; [|apply do_ls_sort_perm].
  unfold do_ls_sort. rewrite Ht, Hu, Hc, Hf. simpl.
  apply qsort_sorted_R; [apply ctime_le|apply ctime_gt].
Qed.

Lemma ctime_sort_witness :
  is_sort_by_time_enabled (flags_of_opts ["c"%char]) = false /\
  is_sort_by_access_time_enabled (flags_of_opts ["c"%char]) = false /\
  is_ctime_option_enabled (flags_of_opts ["c"%char]) = true /\
  is_no_sort_enabled (flags_of_opts ["c"%char]) = false /\
  Sorted (ctime_order w_ctime) (do_ls_sort w_ctime (flags_of_opts ["c"%char]) ["b"; "a"]%string).
Proof.
  split; [reflexivity|split; [reflexivity|split; [reflexivity|split; [reflexivity|]]]].
  exact (proj1 (ctime_sort w_ctime (flags_of_opts ["c"%char]) ["b"; "a"]%string
                  eq_refl eq_refl eq_refl eq_refl)).
Defined.

(** ** The long listing of a directory *)

Lemma sum_stat_size_nonneg : forall w D l,
  Forall (fun n => exists st, stat w (join_path D n) = Some st /\ 0 <= st_size st) l ->
  0 <= sum_Z (map (stat_size w D) l).
Proof.
  intros w D l H. induction H as [|n l [st [Hst Hsz]] _ IH]; [unfold sum_Z; simpl; lia|].
  cbn [map]. unfold sum_Z in *. cbn [fold_right].
  unfold stat_size at 1. rewrite Hst. lia.
Qed.

Lemma lf_first_pass_ok : forall w fl D ents room t0,
  (List.length (kept fl ents) <= room)%nat ->
  Forall (fun n => exists st, stat w (join_path D n) = Some st /\ 0 <= st_size st)
    (kept fl ents) ->
  0 <= t0 -> t0 + sum_Z (map (stat_size w D) (kept fl ents)) <= LONG_MAX ->
  exists t, lf_first_pass w fl D ents room t0 = PassDone (kept fl ents) t.
Proof.
  intros w fl D. induction ents as [|d rest IH]; intros room t0 Hl Hs H0 Hmax;
    cbn [lf_first_pass]; [eexists; reflexivity|].
  unfold kept in Hl, Hs, Hmax |- *. cbn [filter] in Hl, Hs, Hmax |- *.
  destruct (skip_entry fl d); simpl in Hl, Hs, Hmax |- *; [apply IH; assumption|].
  destruct room as [|room']; [simpl in Hl; lia|].
  destruct (Forall_inv Hs) as [st [E Hsz]]. rewrite E.
  pose proof (sum_stat_size_nonneg w D _ (Forall_inv_tail Hs)) as Hrest.
  unfold sum_Z in Hmax, Hrest. cbn [fold_right] in Hmax.
  unfold stat_size at 1 in Hmax. rewrite E in Hmax.
  replace (long_fits (t0 + st_size st)) with true
    by (symmetry; unfold long_fits; apply andb_true_iff;
        split; apply Z.leb_le; unfold LONG_MIN, LONG_MAX in *; lia).
  cbv iota beta.
  destruct (IH room' (t0 + st_size st)) as [t Ht];
    [unfold kept; simpl in Hl; lia|exact (Forall_inv_tail Hs)|lia|unfold sum_Z, kept; lia|].
  rewrite Ht. eexists. reflexivity.
Qed.

Lemma printed_names_long_entry : forall w fl p, long_ok w p ->
  printed_names (print_inode w fl p ++ print_longformat w p) = [p].
Proof.
  intros w fl p [st [Hl [Ho [Hg [Ht Hb]]]]].
  rewrite printed_names_app, printed_names_longformat, Hl.
  destruct (getpwuid w (st_uid st)); [|contradiction].
  destruct (getgrgid w (st_gid st)); [|contradiction].
  rewrite Ht. destruct (lstat w (basename_path p)); [|contradiction].
  unfold print_inode. rewrite Hl. destruct (is_inode_enabled fl); reflexivity.
Qed.

(** [list_directory_long_format] on a directory whose kept entries fit
    the 1024 slots of [filenames], can all be [stat]ed with a nonnegative
    size, and whose sizes add up to at most [LONG_MAX], closes the
    directory, prints the "total" line before any entry, then prints each
    kept entry exactly once when its line can be printed whole.  The second
    pass names them [input_path ++ "/" ++ name] cut by [snprintf] to 1023
    bytes, also for the root ("//name"). *)
Theorem long_lists_each_once : forall w fl D ents, opendir w D = Some ents ->
  (List.length (kept fl ents) <= MAX_LONG)%nat ->
  Forall (fun n => exists st, stat w (join_path D n) = Some st /\ 0 <= st_size st)
    (kept fl ents) ->
  sum_Z (map (stat_size w D) (kept fl ents)) <= LONG_MAX ->
  Forall (fun n => long_ok w (snprintf_full_path (D ++ "/" ++ n))) (kept fl ents) ->
  exists n rest, list_directory_long_format w fl D = DirOpen D :: DirClose D :: Total n :: rest
    /\ Permutation (printed_names rest)
         (map (fun n => snprintf_full_path (D ++ "/" ++ n)) (kept fl ents)).
Proof.
  intros w fl D ents Ho Hl Hs Hmax Hk. unfold list_directory_long_format. rewrite Ho.
  destruct (lf_first_pass_ok w fl D ents MAX_LONG 0 Hl Hs ltac:(lia) ltac:(lia)) as [t Ht].
  rewrite Ht. do 2 eexists. split; [reflexivity|].
  assert (Hk' : Forall (fun n => long_ok w (snprintf_full_path (D ++ "/" ++ n)))
                  (lf_sort w fl (kept fl ents)))
    by (apply (Forall_perm _ (kept fl ents)); [apply lf_sort_perm|exact Hk]).
  assert (E : forall l, Forall (fun n => long_ok w (snprintf_full_path (D ++ "/" ++ n))) l ->
    printed_names (List.concat (map (fun n =>
        print_inode w fl (snprintf_full_path (D ++ "/" ++ n))
        ++ print_longformat w (snprintf_full_path (D ++ "/" ++ n))) l))
    = map (fun n => snprintf_full_path (D ++ "/" ++ n)) l).
  { intros l Hf. induction Hf as [|x l Hx Hf IH]; [reflexivity|].
    cbn [map List.concat]. rewrite printed_names_app, IH, printed_names_long_entry by exact Hx.
    reflexivity. }
  rewrite E by exact Hk'.
  apply Permutation_map, Permutation_sym, lf_sort_perm.
Qed.

Lemma long_lists_each_once_witness :
  opendir w_link "/d"%string = Some ["."; ".."; "big"; "lnk"]%string /\
  (List.length (kept (flags_of_opts ["l"%char]) ["."; ".."; "big"; "lnk"]%string) <= MAX_LONG)%nat /\
  Forall (fun n => exists st, stat w_link (join_path "/d" n) = Some st /\ 0 <= st_size st)
    (kept (flags_of_opts ["l"%char]) ["."; ".."; "big"; "lnk"]%string) /\
  sum_Z (map (stat_size w_link "/d")
           (kept (flags_of_opts ["l"%char]) ["."; ".."; "big"; "lnk"]%string)) <= LONG_MAX /\
  Forall (fun n => long_ok w_link (snprintf_full_path ("/d" ++ "/" ++ n)))
    (kept (flags_of_opts ["l"%char]) ["."; ".."; "big"; "lnk"]%string) /\
  exists n rest, list_directory_long_format w_link (flags_of_opts ["l"%char]) "/d" =
      DirOpen "/d" :: DirClose "/d" :: Total n :: rest /\
    Permutation (printed_names rest)
      (map (fun n => snprintf_full_path ("/d" ++ "/" ++ n))
         (kept (flags_of_opts ["l"%char]) ["."; ".."; "big"; "lnk"]%string)).
Proof.
  assert (H1 : opendir w_link "/d"%string = Some ["."; ".."; "big"; "lnk"]%string) by reflexivity.
  assert (H2 : (List.length (kept (flags_of_opts ["l"%char]) ["."; ".."; "big"; "lnk"]%string)
                <= MAX_LONG)%nat) by (vm_compute; lia).
  assert (H3 : Forall (fun n => exists st, stat w_link (join_path "/d" n) = Some st
                                            /\ 0 <= st_size st)
                 (kept (flags_of_opts ["l"%char]) ["."; ".."; "big"; "lnk"]%string)).
  { vm_compute. constructor; [|constructor; [|constructor]];
      eexists; split; [reflexivity|discriminate|reflexivity|discriminate]. }
  assert (H4 : sum_Z (map (stat_size w_link "/d")
                 (kept (flags_of_opts ["l"%char]) ["."; ".."; "big"; "lnk"]%string)) <= LONG_MAX)
    by (apply Z.leb_le; vm_compute; reflexivity).
  assert (H5 : Forall (fun n => long_ok w_link (snprintf_full_path ("/d" ++ "/" ++ n)))
                 (kept (flags_of_opts ["l"%char]) ["."; ".."; "big"; "lnk"]%string)).
  { vm_compute. constructor; [|constructor; [|constructor]].
    - exists (reg 11 2048 0 0 0). vm_compute.
      split; [reflexivity|split; [discriminate|split; [discriminate|split; [reflexivity|discriminate]]]].
    - exists (lnk 12 3). vm_compute.
      split; [reflexivity|split; [discriminate|split; [discriminate|split; [reflexivity|discriminate]]]]. }
  split; [exact H1|split; [exact H2|split; [exact H3|split; [exact H4|split; [exact H5|]]]]].
  exact (long_lists_each_once w_link _ "/d" _ H1 H2 H3 H4 H5).
Defined.
